(** * moltbot-memory-local: a shallow embedding of [LocalMemoryPlugin]

    The development follows the TypeScript source of the unified plugin
    (SQLite table [memories] + LanceDB table [memories] + query router):

    - [JsString]: the string primitives the plugin calls
      ([toLowerCase], [split(/\s+/)], [trim]);
    - [Regex]: the fragment of JavaScript regular expressions used by
      [TEMPORAL_PATTERNS], [EXACT_PATTERNS] and the default [noisePatterns],
      with [RegExp.prototype.test];
    - [Router]: [detectQueryType];
    - [Types]: the records of the public interface, the configuration and
      the errors;
    - [Sql]: the rows of table [memories] and the SQL the plugin issues
      ([LIKE], [ORDER BY], [LIMIT], [INSERT], [DELETE ... WHERE id IN]);
    - [Lance]: the vector table and the external engine (embedding model and
      nearest-neighbour search), whose calls may throw;
    - [Plugin]: [store], [recall], [structuredSearch], [semanticSearch],
      [forget], [pruneOldMemories] and the asynchronous embedding jobs;
    - [Run]: sequences of calls, and the notions the statements use;
    - [Demo]: concrete plugins and runs for the examples.

    Text is modelled over 8-bit characters with the ASCII reading of case,
    white space and word characters.  [importance] (an SQL REAL) is a
    rational; timestamps are ISO strings compared as SQLite compares TEXT. *)

From Stdlib Require Import List String Ascii Bool Arith ZArith QArith Lia.
From Stdlib Require Import Permutation Sorted.
Import ListNotations.
Close Scope Q_scope.
Set Warnings "-register-all".
Open Scope string_scope.
Open Scope list_scope.

(* ------------------------------------------------------------------------- *)
(** ** JavaScript string primitives *)

Module JsString.

Definition chars (s : string) : list ascii := list_ascii_of_string s.
Definition of_chars (l : list ascii) : string := string_of_list_ascii l.

Definition is_upper (c : ascii) : bool :=
  let n := nat_of_ascii c in (65 <=? n)%nat && (n <=? 90)%nat.

Definition is_lower (c : ascii) : bool :=
  let n := nat_of_ascii c in (97 <=? n)%nat && (n <=? 122)%nat.

Definition is_digit (c : ascii) : bool :=
  let n := nat_of_ascii c in (48 <=? n)%nat && (n <=? 57)%nat.

(** [\s]: tab, line feed, vertical tab, form feed, carriage return, space. *)
Definition is_space (c : ascii) : bool :=
  let n := nat_of_ascii c in ((9 <=? n)%nat && (n <=? 13)%nat) || (n =? 32)%nat.

(** [\w]: letters, digits and the underscore. *)
Definition is_word (c : ascii) : bool :=
  is_upper c || is_lower c || is_digit c || (nat_of_ascii c =? 95)%nat.

Definition lower_char (c : ascii) : ascii :=
  if is_upper c then ascii_of_nat (nat_of_ascii c + 32) else c.

(** [s.toLowerCase()] *)
Definition lower_chars (l : list ascii) : list ascii := map lower_char l.
Definition toLowerCase (s : string) : string := of_chars (lower_chars (chars s)).

(** [s.split(/\s+/)]: the pieces between maximal runs of white space; a run
    at either end leaves an empty piece there, and the empty string splits
    into one empty piece.  [cur] is the piece being read, reversed. *)
Fixpoint split_ws_aux (cur : list ascii) (in_ws : bool) (s : list ascii)
  : list (list ascii) :=
  match s with
  | [] => [rev cur]
  | c :: s' =>
      if is_space c then
        if in_ws then split_ws_aux [] true s'
        else rev cur :: split_ws_aux [] true s'
      else split_ws_aux (c :: cur) false s'
  end.

Definition split_ws (s : list ascii) : list (list ascii) := split_ws_aux [] false s.

(** [s.trim()] *)
Fixpoint trim_start (s : list ascii) : list ascii :=
  match s with
  | [] => []
  | c :: s' => if is_space c then trim_start s' else s
  end.

Definition trim_chars (s : list ascii) : list ascii :=
  rev (trim_start (rev (trim_start s))).

Definition trim (s : string) : string := of_chars (trim_chars (chars s)).

(** Truthiness of a string: only the empty string is falsy. *)
Definition truthy (s : string) : bool :=
  match s with EmptyString => false | String _ _ => true end.

(** [o || d] and the test [if (o)] for an optional string parameter. *)
Definition truthy_opt (o : option string) : bool :=
  match o with Some s => truthy s | None => false end.

End JsString.

(* ------------------------------------------------------------------------- *)
(** ** Regular expressions

    The constructs that occur in the plugin's patterns: literals, the
    classes [\d], [\s] and bracket sets, sequence, alternation, [*] over a
    class (so [+], [?] and [{m,n}] are written out), the anchors [^] and [$],
    and the word boundary [\b]. *)

Module Regex.
Import JsString.

Inductive cclass : Type :=
| CDigit
| CSpace
| CSet (cs : list ascii).

Inductive regex : Type :=
| REps
| RChr (c : ascii)
| RClass (k : cclass)
| RSeq (a b : regex)
| RAlt (a b : regex)
| RStar (k : cclass)
| RBol
| REol
| RWordB.

(** A compiled pattern: its body and the [i] flag. *)
Record RegExp : Type := mkRegExp { body : regex; ignoreCase : bool }.

Definition in_class (k : cclass) (c : ascii) : bool :=
  match k with
  | CDigit => is_digit c
  | CSpace => is_space c
  | CSet cs => existsb (Ascii.eqb c) cs
  end.

Definition chr_eq (ci : bool) (c d : ascii) : bool :=
  if ci then Ascii.eqb (lower_char c) (lower_char d) else Ascii.eqb c d.

Definition word_opt (o : option ascii) : bool :=
  match o with Some c => is_word c | None => false end.

(** Backtracking matcher in continuation-passing style.  [prev] is the
    character just before the current position (needed by [^] and [\b]),
    [s] the rest of the input, [k] what remains to be matched. *)
Fixpoint rmatch (ci : bool) (r : regex) (prev : option ascii) (s : list ascii)
  (k : option ascii -> list ascii -> bool) {struct r} : bool :=
  match r with
  | REps => k prev s
  | RChr c =>
      match s with
      | d :: s' => chr_eq ci c d && k (Some d) s'
      | [] => false
      end
  | RClass cl =>
      match s with
      | d :: s' => in_class cl d && k (Some d) s'
      | [] => false
      end
  | RSeq a b => rmatch ci a prev s (fun p' s' => rmatch ci b p' s' k)
  | RAlt a b => rmatch ci a prev s k || rmatch ci b prev s k
  | RStar cl =>
      (fix star (p : option ascii) (t : list ascii) {struct t} : bool :=
         k p t ||
         match t with
         | d :: t' => in_class cl d && star (Some d) t'
         | [] => false
         end) prev s
  | RBol => match prev with None => k prev s | Some _ => false end
  | REol => match s with [] => k prev s | _ :: _ => false end
  | RWordB => xorb (word_opt prev) (word_opt (hd_error s)) && k prev s
  end.

(** A match may start at any position. *)
Fixpoint search (ci : bool) (r : regex) (prev : option ascii) (s : list ascii) : bool :=
  rmatch ci r prev s (fun _ _ => true) ||
  match s with
  | [] => false
  | c :: s' => search ci r (Some c) s'
  end.

(** [re.test(s)] *)
Definition test (re : RegExp) (s : string) : bool :=
  search (ignoreCase re) (body re) None (chars s).

(** Pattern-building shorthands. *)
Fixpoint lit_chars (l : list ascii) : regex :=
  match l with
  | [] => REps
  | [c] => RChr c
  | c :: l' => RSeq (RChr c) (lit_chars l')
  end.

Definition lit (s : string) : regex := lit_chars (chars s).

Fixpoint seqs (rs : list regex) : regex :=
  match rs with
  | [] => REps
  | [r] => r
  | r :: rs' => RSeq r (seqs rs')
  end.

Fixpoint alts (rs : list regex) : regex :=
  match rs with
  | [] => REps
  | [r] => r
  | r :: rs' => RAlt r (alts rs')
  end.

Definition words (ws : list string) : regex := alts (map lit ws).
Definition opt (r : regex) : regex := RAlt r REps.
Definition plus (k : cclass) : regex := RSeq (RClass k) (RStar k).
Definition digit : regex := RClass CDigit.
Definition digit12 : regex := RSeq digit (opt digit).

End Regex.

(* ------------------------------------------------------------------------- *)
(** ** Query type detection *)

Module Router.
Import JsString Regex.

Inductive QueryType : Type := semantic | structured.

Definition TEMPORAL_PATTERNS : list RegExp :=
  [ (* /\b(yesterday|today|last\s+(week|month|year)|this\s+(week|month|year))\b/i *)
    mkRegExp
      (seqs [RWordB;
             alts [lit "yesterday"; lit "today";
                   seqs [lit "last"; plus CSpace; words ["week"; "month"; "year"]];
                   seqs [lit "this"; plus CSpace; words ["week"; "month"; "year"]]];
             RWordB]) true;
    (* /\b(monday|tuesday|wednesday|thursday|friday|saturday|sunday)\b/i *)
    mkRegExp
      (seqs [RWordB;
             words ["monday"; "tuesday"; "wednesday"; "thursday"; "friday";
                    "saturday"; "sunday"];
             RWordB]) true;
    (* /\b\d{1,2}[:\-]\d{2}\b/ *)
    mkRegExp
      (seqs [RWordB; digit12; RClass (CSet [":"; "-"]%char); digit; digit; RWordB])
      false;
    (* /\b\d{4}[\/\-]\d{1,2}[\/\-]\d{1,2}\b/ *)
    mkRegExp
      (seqs [RWordB; digit; digit; digit; digit;
             RClass (CSet ["/"; "-"]%char); digit12;
             RClass (CSet ["/"; "-"]%char); digit12; RWordB])
      false;
    (* /\b(january|...|december)\b/i *)
    mkRegExp
      (seqs [RWordB;
             words ["january"; "february"; "march"; "april"; "may"; "june"; "july";
                    "august"; "september"; "october"; "november"; "december"];
             RWordB]) true;
    (* /\bwhen\s+did\b/i *)
    mkRegExp (seqs [RWordB; lit "when"; plus CSpace; lit "did"; RWordB]) true;
    (* /\b(at|on|during|before|after)\s+\d/i *)
    mkRegExp
      (seqs [RWordB; words ["at"; "on"; "during"; "before"; "after"];
             plus CSpace; digit]) true ].

Definition EXACT_PATTERNS : list RegExp :=
  [ (* /^what\s+(is|are|was|were)\s+(my|the)\b/i *)
    mkRegExp
      (seqs [RBol; lit "what"; plus CSpace; words ["is"; "are"; "was"; "were"];
             plus CSpace; words ["my"; "the"]; RWordB]) true;
    (* /\bexact(ly)?\b/i *)
    mkRegExp (seqs [RWordB; lit "exact"; opt (lit "ly"); RWordB]) true;
    (* /\bid\s*[:=]/i *)
    mkRegExp (seqs [RWordB; lit "id"; RStar CSpace; RClass (CSet [":"; "="]%char)]) true ].

Definition detectQueryType (query : string) : QueryType :=
  if existsb (fun pattern => test pattern query) TEMPORAL_PATTERNS then structured
  else if existsb (fun pattern => test pattern query) EXACT_PATTERNS then structured
  else semantic.

End Router.

(* ------------------------------------------------------------------------- *)
(** ** Types of the plugin *)

Module Types.
Import Regex.

Inductive MemoryCategory : Type :=
| preference | fact | decision | entity | conversation | other.

(** A JSON value.  [metadata] is a [Record<string, unknown>]; the column
    [metadata] holds [JSON.stringify(metadata)] and every reader applies
    [JSON.parse] to it, so the model keeps the JSON value in the column. *)
Inductive json : Type :=
| JNull
| JBool (b : bool)
| JNum (q : Q)
| JStr (s : string)
| JArr (items : list json)
| JObj (fields : list (string * json)).

Record Memory : Type := mkMemory {
  id : string;
  text : string;
  category : MemoryCategory;
  importance : Q;
  createdAt : string;
  updatedAt : string;
  sessionKey : option string;
  metadata : option json;
  score : option Q
}.

Record MemoryStoreParams : Type := mkStoreParams {
  sp_text : string;
  sp_category : option MemoryCategory;
  sp_importance : option Q;
  sp_sessionKey : option string;
  sp_metadata : option json
}.

Inductive Mode : Type := mode_auto | mode_semantic | mode_structured.

Record MemoryRecallParams : Type := mkRecallParams {
  query : string;
  limit : option Z;
  rp_category : option MemoryCategory;
  dateFrom : option string;
  dateTo : option string;
  filterNoise : option bool;
  mode : option Mode
}.

Record MemoryForgetParams : Type := mkForgetParams {
  memoryId : option string;
  fp_query : option string
}.

Record PluginConfig : Type := mkConfig {
  dataDir : string;
  maxMemories : Z;
  defaultImportance : Q;
  noisePatterns : list RegExp;
  embeddingModel : string;
  enableEmbeddings : bool
}.

(** [DEFAULT_CONFIG]; [home] stands for [homedir()]. *)
Definition DEFAULT_CONFIG (home : string) : PluginConfig :=
  {| dataDir := home ++ "/.moltbot/memory";
     maxMemories := 10000;
     defaultImportance := 7 # 10;
     noisePatterns :=
       [ (* '^(ok|okay|yes|no|thanks|thank you|sure|got it|cool|nice|great)$' *)
         mkRegExp
           (seqs [RBol;
                  words ["ok"; "okay"; "yes"; "no"; "thanks"; "thank you"; "sure";
                         "got it"; "cool"; "nice"; "great"];
                  REol]) true;
         (* '^\\s*$' *)
         mkRegExp (seqs [RBol; RStar CSpace; REol]) true ];
     embeddingModel := "Xenova/all-MiniLM-L6-v2";
     enableEmbeddings := true |}.

(** Errors that cross the public boundary. *)
Inductive Error : Type :=
| NotInitialized      (* 'Database not initialized. Call init() first.' *)
| SqliteConstraint.   (* UNIQUE constraint failed: memories.id *)

Inductive result (A : Type) : Type :=
| Ok (a : A)
| Throw (e : Error).

Arguments Ok {A} a.
Arguments Throw {A} e.

Definition bind {A B : Type} (m : result A) (f : A -> result B) : result B :=
  match m with
  | Ok a => f a
  | Throw e => Throw e
  end.

End Types.

Notation "x <- m ;; k" := (Types.bind m (fun x => k))
  (at level 61, m at next level, right associativity).

(* ------------------------------------------------------------------------- *)
(** ** The table [memories] and the SQL the plugin runs on it *)

Module Sql.
Import JsString Types.

Record Row : Type := mkRow {
  row_id : string;               (* id TEXT PRIMARY KEY *)
  row_text : string;             (* text TEXT NOT NULL *)
  text_lower : string;           (* text_lower TEXT NOT NULL *)
  row_category : MemoryCategory; (* category TEXT *)
  row_importance : Q;            (* importance REAL *)
  created_at : string;           (* created_at TEXT NOT NULL *)
  updated_at : string;           (* updated_at TEXT NOT NULL *)
  session_key : option string;   (* session_key TEXT *)
  row_metadata : option json;    (* metadata TEXT *)
  has_embedding : bool           (* has_embedding INTEGER *)
}.

(** The table is the list of its rows in rowid order. *)
Definition Table : Type := list Row.

(** [s LIKE p]: [%] stands for any run of characters, [_] for any single
    character, and letters match without regard to case. *)
Fixpoint like_chars (p s : list ascii) {struct p} : bool :=
  match p with
  | [] => match s with [] => true | _ :: _ => false end
  | c :: p' =>
      if Ascii.eqb c "%" then
        (fix any (t : list ascii) {struct t} : bool :=
           like_chars p' t ||
           match t with
           | [] => false
           | _ :: t' => any t'
           end) s
      else if Ascii.eqb c "_" then
        match s with
        | [] => false
        | _ :: s' => like_chars p' s'
        end
      else
        match s with
        | [] => false
        | d :: s' => Ascii.eqb (lower_char c) (lower_char d) && like_chars p' s'
        end
  end.

Definition like (s pattern : string) : bool := like_chars (chars pattern) (chars s).

(** Occurrence of a word in a string without regard to case: what
    [s LIKE '%w%'] amounts to for a word [w] that holds neither [%] nor [_]. *)
Fixpoint prefix_nocase (w s : list ascii) : bool :=
  match w, s with
  | [], _ => true
  | _ :: _, [] => false
  | c :: w', d :: s' => Ascii.eqb (lower_char c) (lower_char d) && prefix_nocase w' s'
  end.

Fixpoint infix_nocase (w s : list ascii) : bool :=
  prefix_nocase w s ||
  match s with
  | [] => false
  | _ :: s' => infix_nocase w s'
  end.

Definition contains_nocase (s w : string) : bool := infix_nocase (chars w) (chars s).

Definition wildcard_free (w : string) : bool :=
  forallb (fun c => negb (Ascii.eqb c "%" || Ascii.eqb c "_")) (chars w).

(** ORDER BY: columns are compared one after the other. *)
Inductive Direction : Type := ASC | DESC.

Definition cmp_importance (a b : Row) : comparison :=
  Qcompare (row_importance a) (row_importance b).

Definition cmp_created_at (a b : Row) : comparison :=
  String.compare (created_at a) (created_at b).

Fixpoint order_cmp (terms : list ((Row -> Row -> comparison) * Direction))
  (a b : Row) : comparison :=
  match terms with
  | [] => Eq
  | (cmp, d) :: terms' =>
      match (match d with ASC => cmp a b | DESC => cmp b a end) with
      | Eq => order_cmp terms' a b
      | c => c
      end
  end.

Definition order_leb (terms : list ((Row -> Row -> comparison) * Direction))
  (a b : Row) : bool :=
  match order_cmp terms a b with Gt => false | _ => true end.

Section Sorting.
Context {A : Type} (leb : A -> A -> bool).

Fixpoint insert_by (x : A) (l : list A) : list A :=
  match l with
  | [] => [x]
  | y :: l' => if leb x y then x :: l else y :: insert_by x l'
  end.

Fixpoint sort_by (l : list A) : list A :=
  match l with
  | [] => []
  | x :: l' => insert_by x (sort_by l')
  end.
End Sorting.

Definition order_by (terms : list ((Row -> Row -> comparison) * Direction))
  (rows : list Row) : list Row :=
  sort_by (order_leb terms) rows.

(** [LIMIT n]: a negative [n] means no limit. *)
Definition sql_limit {A : Type} (n : Z) (l : list A) : list A :=
  if (n <? 0)%Z then l else firstn (Z.to_nat n) l.

Definition has_id (i : string) (rows : Table) : bool :=
  existsb (fun r => String.eqb (row_id r) i) rows.

(** [INSERT INTO memories ...]: [id] is the primary key. *)
Definition insert_row (r : Row) (rows : Table) : result Table :=
  if has_id (row_id r) rows then Throw SqliteConstraint else Ok (rows ++ [r]).

Definition id_in (ids : list string) (i : string) : bool :=
  existsb (String.eqb i) ids.

(** [DELETE FROM memories WHERE id IN (...)], with the number of rows
    deleted ([getRowsModified]). *)
Definition delete_ids (ids : list string) (rows : Table) : Table * Z :=
  let rows' := filter (fun r => negb (id_in ids (row_id r))) rows in
  (rows', Z.of_nat (List.length rows) - Z.of_nat (List.length rows'))%Z.

(** [UPDATE memories SET has_embedding = 1 WHERE id = ?] *)
Definition set_embedded (r : Row) : Row :=
  mkRow (row_id r) (row_text r) (text_lower r) (row_category r)
        (row_importance r) (created_at r) (updated_at r)
        (session_key r) (row_metadata r) true.

Definition mark_embedded (i : string) (rows : Table) : Table :=
  map (fun r => if String.eqb (row_id r) i then set_embedded r else r) rows.

End Sql.

(* ------------------------------------------------------------------------- *)
(** ** The vector store and the embedding function

    Both are external.  The contents of the LanceDB table are kept as a list
    of rows; what the engine answers to a nearest-neighbour search, what the
    embedding model returns, and whether a call throws, is the engine's
    choice. *)

Module Lance.

Record VecRow : Type := mkVecRow {
  v_id : string;
  vector : list Q;
  v_text : string
}.

(** One search result: the row's [id] and its [_distance]. *)
Record Hit : Type := mkHit {
  h_id : string;
  h_distance : option Q
}.

Record Engine : Type := mkEngine {
  (** [embed(text, modelName)]; [None] when it throws. *)
  embed : string -> string -> option (list Q);
  (** [lanceTable.search(v).limit(k).toArray()]; [None] when it throws. *)
  search : list VecRow -> list Q -> Z -> option (list Hit);
  (** whether [lanceTable.add([row])] resolves *)
  add_ok : VecRow -> bool;
  (** whether [lanceTable.delete('id = "..."')] resolves *)
  delete_ok : string -> bool
}.

Definition delete_row (i : string) (tbl : list VecRow) : list VecRow :=
  filter (fun v => negb (String.eqb (v_id v) i)) tbl.

End Lance.

(* ------------------------------------------------------------------------- *)
(** ** LocalMemoryPlugin *)

Module Plugin.
Import JsString Regex Router Types Sql Lance.

(** Work started by a call and not awaited by it. *)
Inductive Job : Type :=
| JobEmbed (m : Memory)          (* this.storeEmbedding(memory) *)
| JobVecDelete (i : string).     (* lanceTable.delete(...).catch(() => {}) *)

(** The plugin instance together with the module-level [lanceDb] and
    [lanceTable]. *)
Record State : Type := mkState {
  db : option Table;
  config : PluginConfig;
  lanceDb : bool;
  lanceTable : option (list VecRow);
  pending : list Job
}.

Definition set_db (st : State) (rows : Table) : State :=
  mkState (Some rows) (config st) (lanceDb st) (lanceTable st) (pending st).

Definition set_lanceTable (st : State) (tbl : option (list VecRow)) : State :=
  mkState (db st) (config st) (lanceDb st) tbl (pending st).

Definition add_pending (st : State) (js : list Job) : State :=
  mkState (db st) (config st) (lanceDb st) (lanceTable st) (pending st ++ js).

Definition row_of_memory (m : Memory) : Row :=
  {| row_id := id m;
     row_text := text m;
     text_lower := toLowerCase (text m);
     row_category := category m;
     row_importance := importance m;
     created_at := createdAt m;
     updated_at := updatedAt m;
     session_key :=
       match sessionKey m with
       | Some k => if truthy k then Some k else None
       | None => None
       end;
     row_metadata := metadata m;
     has_embedding := false |}.

Definition memory_of_row (r : Row) : Memory :=
  {| id := row_id r;
     text := row_text r;
     category := row_category r;
     importance := row_importance r;
     createdAt := created_at r;
     updatedAt := updated_at r;
     sessionKey :=
       match session_key r with
       | Some k => if truthy k then Some k else None
       | None => None
       end;
     metadata := row_metadata r;
     score := None |}.

Definition with_score (m : Memory) (s : Q) : Memory :=
  mkMemory (id m) (text m) (category m) (importance m) (createdAt m)
           (updatedAt m) (sessionKey m) (metadata m) (Some s).

(** The condition [category = ?]. *)
Definition cond_category (c : MemoryCategory) (r : Row) : bool :=
  match c, row_category r with
  | preference, preference | fact, fact | decision, decision
  | entity, entity | conversation, conversation | other, other => true
  | _, _ => false
  end.

(** *** stats *)

Record Stats : Type := mkStats {
  total : Z;
  withEmbeddings : Z;
  byCategory : list (MemoryCategory * Z)
}.

Definition count_rows (f : Row -> bool) (rows : Table) : Z :=
  Z.of_nat (List.length (filter f rows)).

(** [SELECT COUNT( * )], [... WHERE has_embedding = 1] and
    [... GROUP BY category]. *)
Definition stats (rows : Table) : Stats :=
  {| total := Z.of_nat (List.length rows);
     withEmbeddings := count_rows has_embedding rows;
     byCategory :=
       filter (fun cn => (0 <? snd cn)%Z)
         (map (fun c => (c, count_rows (cond_category c) rows))
              [preference; fact; decision; entity; conversation; other]) |}.

(** *** pruneOldMemories

    [save()] writes the database file and has no part in what the calls
    return; it is left out throughout. *)

Definition PRUNE_ORDER : list ((Row -> Row -> comparison) * Direction) :=
  [(cmp_importance, ASC); (cmp_created_at, ASC)].

Definition SEARCH_ORDER : list ((Row -> Row -> comparison) * Direction) :=
  [(cmp_importance, DESC); (cmp_created_at, DESC)].

Definition pruneOldMemories (st : State) : State :=
  match db st with
  | None => st
  | Some rows =>
      let total := total (stats rows) in
      if (maxMemories (config st) <? total)%Z then
        let toDelete := (total - maxMemories (config st))%Z in
        let idsToDelete :=
          map row_id (sql_limit toDelete (order_by PRUNE_ORDER rows)) in
        match idsToDelete with
        | [] => st
        | _ :: _ =>
            let st1 := set_db st (fst (delete_ids idsToDelete rows)) in
            match lanceTable st with
            | Some _ => add_pending st1 (map JobVecDelete idsToDelete)
            | None => st1
            end
        end
      else st
  end.

(** *** store

    [uuid] is the value of [randomUUID()] and [now] that of
    [new Date().toISOString()] in this call. *)

Definition new_memory (cfg : PluginConfig) (params : MemoryStoreParams)
  (uuid now : string) : Memory :=
  {| id := uuid;
     text := sp_text params;
     category := match sp_category params with Some c => c | None => other end;
     importance :=
       match sp_importance params with
       | Some i => i
       | None => defaultImportance cfg
       end;
     createdAt := now;
     updatedAt := now;
     sessionKey := sp_sessionKey params;
     metadata := sp_metadata params;
     score := None |}.

Definition store (st : State) (params : MemoryStoreParams) (uuid now : string)
  : result (State * Memory) :=
  match db st with
  | None => Throw NotInitialized
  | Some rows =>
      let memory := new_memory (config st) params uuid now in
      rows1 <- insert_row (row_of_memory memory) rows ;;
      let st1 := set_db st rows1 in
      let st2 :=
        if enableEmbeddings (config st) && lanceDb st
        then add_pending st1 [JobEmbed memory]
        else st1 in
      Ok (pruneOldMemories st2, memory)
  end.

(** *** storeEmbedding and the detached vector deletions, when they run *)

Definition storeEmbedding (eng : Engine) (st : State) (memory : Memory) : State :=
  match embed eng (text memory) (embeddingModel (config st)) with
  | None => st
  | Some v =>
      (* ensureLanceTable *)
      let tbl := match lanceTable st with Some t => t | None => [] end in
      let vrow := mkVecRow (id memory) v (text memory) in
      if add_ok eng vrow then
        let st1 := set_lanceTable st (Some (tbl ++ [vrow])) in
        match db st1 with
        | Some rows => set_db st1 (mark_embedded (id memory) rows)
        | None => st1
        end
      else set_lanceTable st (Some tbl)
  end.

Definition run_job (eng : Engine) (st : State) (j : Job) : State :=
  match j with
  | JobEmbed m => storeEmbedding eng st m
  | JobVecDelete i =>
      match lanceTable st with
      | Some tbl =>
          if delete_ok eng i then set_lanceTable st (Some (delete_row i tbl)) else st
      | None => st
      end
  end.

(** The pending job at position [n] completes (jobs need not complete in
    the order in which they were started). *)
Definition step_pending (eng : Engine) (st : State) (n : nat) : State :=
  match nth_error (pending st) n with
  | None => st
  | Some j =>
      run_job eng
        (mkState (db st) (config st) (lanceDb st) (lanceTable st)
                 (firstn n (pending st) ++ skipn (S n) (pending st)))
        j
  end.

(** *** structuredSearch *)

Definition STOP_WORDS : list string :=
  ["what"; "did"; "when"; "where"; "how"; "the"; "is"; "are"; "was"; "were";
   "my"; "you"; "last"; "this"].

Definition includes (l : list string) (w : string) : bool :=
  existsb (String.eqb w) l.

Definition query_words (q : string) : list string :=
  filter (fun w => (1 <? String.length w)%nat)
         (map of_chars (split_ws (chars (toLowerCase q)))).

Definition search_words (q : string) : list string :=
  filter (fun w => negb (includes STOP_WORDS w)) (query_words q).

(** The condition [(text_lower LIKE ? OR ... )] with values ['%word%']. *)
Definition cond_text (searchWords : list string) (r : Row) : bool :=
  existsb (fun word => like (text_lower r) ("%" ++ word ++ "%")) searchWords.

Definition cond_dateFrom (d : string) (r : Row) : bool := String.leb d (created_at r).
Definition cond_dateTo (d : string) (r : Row) : bool := String.leb (created_at r) d.

Definition conditions (params : MemoryRecallParams) : list (Row -> bool) :=
  (if truthy (query params) then
     match search_words (query params) with
     | [] => []
     | ws => [cond_text ws]
     end
   else [])
  ++ (match rp_category params with Some c => [cond_category c] | None => [] end)
  ++ (match dateFrom params with
      | Some d => if truthy d then [cond_dateFrom d] else []
      | None => []
      end)
  ++ (match dateTo params with
      | Some d => if truthy d then [cond_dateTo d] else []
      | None => []
      end).

(** [WHERE c1 AND c2 AND ...]; no clause when there is no condition. *)
Definition where_clause (conds : list (Row -> bool)) (r : Row) : bool :=
  forallb (fun c => c r) conds.

Definition structuredSearch (rows : Table) (params : MemoryRecallParams)
  (limit : Z) : list Memory :=
  map memory_of_row
      (sql_limit (limit * 2)
         (order_by SEARCH_ORDER (filter (where_clause (conditions params)) rows))).

(** *** semanticSearch

    [hydrate] is the part after the vector search: the rows whose id is
    among the hits are read into [memoryMap], and the hits that have an entry
    are returned in search order with their score. *)

Definition lookup_memory (rows : Table) (i : string) : option Memory :=
  match find (fun r => String.eqb (row_id r) i) rows with
  | Some r => Some (memory_of_row r)
  | None => None
  end.

Definition hydrate (rows : Table) (searchResults : list Hit) : list Memory :=
  let ids := map h_id searchResults in
  let memoryMap := lookup_memory (filter (fun r => id_in ids (row_id r)) rows) in
  flat_map
    (fun r =>
       match memoryMap (h_id r) with
       | Some m =>
           [with_score m (1 - match h_distance r with Some d => d | None => 0 end)%Q]
       | None => []
       end)
    searchResults.

Definition semanticSearch (eng : Engine) (st : State) (rows : Table)
  (params : MemoryRecallParams) (limit : Z) : list Memory :=
  match lanceTable st with
  | None => structuredSearch rows params limit
  | Some tbl =>
      match embed eng (query params) (embeddingModel (config st)) with
      | None => structuredSearch rows params limit
      | Some queryVector =>
          match search eng tbl queryVector (limit * 2) with
          | None => structuredSearch rows params limit
          | Some searchResults =>
              match map h_id searchResults with
              | [] => structuredSearch rows params limit
              | _ :: _ => hydrate rows searchResults
              end
          end
      end
  end.

(** *** recall *)

(** [params.limit || 5] *)
Definition limit_or (o : option Z) (d : Z) : Z :=
  match o with
  | Some n => if (n =? 0)%Z then d else n
  | None => d
  end.

Definition is_structured (t : QueryType) : bool :=
  match t with structured => true | semantic => false end.

Definition resolve_mode (params : MemoryRecallParams) : QueryType :=
  match mode params with
  | Some mode_semantic => semantic
  | Some mode_structured => structured
  | Some mode_auto | None => detectQueryType (query params)
  end.

(** [arr.slice(0, limit)] *)
Definition slice0 {A : Type} (e : Z) (l : list A) : list A :=
  let len := Z.of_nat (List.length l) in
  let e' := if (e <? 0)%Z then Z.max (len + e) 0 else Z.min e len in
  firstn (Z.to_nat e') l.

Definition is_noise (cfg : PluginConfig) (m : Memory) : bool :=
  existsb (fun re => test re (text m)) (noisePatterns cfg).

Definition noise_filter_on (params : MemoryRecallParams) : bool :=
  match filterNoise params with
  | Some false => false
  | _ => true
  end.

Definition recall (eng : Engine) (st : State) (params : MemoryRecallParams)
  : result (list Memory) :=
  match db st with
  | None => Throw NotInitialized
  | Some rows =>
      let limit := limit_or (limit params) 5 in
      let queryType := resolve_mode params in
      let results :=
        if is_structured queryType || negb (enableEmbeddings (config st))
        then structuredSearch rows params limit
        else semanticSearch eng st rows params limit in
      let results :=
        if noise_filter_on params
        then filter (fun m => negb (is_noise (config st) m)) results
        else results in
      Ok (slice0 limit results)
  end.

(** *** forget *)

(** The loop over [idsToDelete] inside [try]: the first failing delete
    leaves the loop. *)
Fixpoint lance_delete_all (eng : Engine) (ids : list string) (tbl : list VecRow)
  : list VecRow :=
  match ids with
  | [] => tbl
  | i :: ids' =>
      if delete_ok eng i then lance_delete_all eng ids' (delete_row i tbl) else tbl
  end.

Definition forget (eng : Engine) (st : State) (params : MemoryForgetParams)
  : result (State * Z) :=
  match db st with
  | None => Throw NotInitialized
  | Some rows =>
      idsToDelete <-
        (if truthy_opt (memoryId params) then
           Ok (match memoryId params with Some i => [i] | None => [] end)
         else if truthy_opt (fp_query params) then
           memories <-
             recall eng st
               (mkRecallParams
                  (match fp_query params with Some q => q | None => "" end)
                  (Some 100%Z) None None None (Some false) None) ;;
           Ok (map id memories)
         else Ok []) ;;
      match idsToDelete with
      | [] => Ok (st, 0%Z)
      | _ :: _ =>
          let (rows', deleted) := delete_ids idsToDelete rows in
          let st1 := set_db st rows' in
          let st2 :=
            match lanceTable st with
            | Some tbl => set_lanceTable st1 (Some (lance_delete_all eng idsToDelete tbl))
            | None => st1
            end in
          Ok (st2, deleted)
      end
  end.

(** *** init, on a fresh data directory *)

Definition init (cfg : PluginConfig) (lance_connects : bool) : State :=
  if enableEmbeddings cfg then
    if lance_connects then mkState (Some []) cfg true None []
    else
      mkState (Some [])
        (mkConfig (dataDir cfg) (maxMemories cfg) (defaultImportance cfg)
                  (noisePatterns cfg) (embeddingModel cfg) false)
        false None []
  else mkState (Some []) cfg false None [].

End Plugin.

(* ------------------------------------------------------------------------- *)
(** ** Sequences of calls

    A run of the plugin with one caller: calls to [store] one after the
    other, between which pending jobs (embedding, detached vector deletes)
    may complete. *)

Module Run.
Import Types Sql Lance Plugin.

Inductive Event : Type :=
| EvStore (params : MemoryStoreParams) (uuid now : string)
| EvJob (eng : Engine) (n : nat).

Definition step (st : State) (e : Event) : result State :=
  match e with
  | EvStore params uuid now =>
      r <- store st params uuid now ;; Ok (fst r)
  | EvJob eng n => Ok (step_pending eng st n)
  end.

Fixpoint run (st : State) (evs : list Event) : result State :=
  match evs with
  | [] => Ok st
  | e :: evs' => st' <- step st e ;; run st' evs'
  end.

(** The rows inserted by the [store] calls of a run, in call order. *)
Definition stored_rows (cfg : PluginConfig) (evs : list Event) : list Row :=
  flat_map
    (fun e =>
       match e with
       | EvStore params uuid now => [row_of_memory (new_memory cfg params uuid now)]
       | EvJob _ _ => []
       end)
    evs.

Definition stored_ids (evs : list Event) : list string :=
  flat_map
    (fun e => match e with EvStore _ uuid _ => [uuid] | EvJob _ _ => [] end) evs.

(** [a] is the record [b], possibly with its [has_embedding] flag set
    since. *)
Definition same_record (a b : Row) : Prop := a = b \/ a = set_embedded b.

(** [ranks_no_higher a b]: in the order (importance, createdAt), [a] comes
    no later than [b] when read ascending, that is, [b] ranks at least as
    high as [a]. *)
Definition ranks_no_higher (a b : Row) : Prop :=
  (row_importance a < row_importance b)%Q \/
  ((row_importance a == row_importance b)%Q /\
   String.leb (created_at a) (created_at b) = true).

(** The rows other than [r] that pass the WHERE clause of [params] and that
    [ORDER BY importance DESC, created_at DESC] may place before [r]. *)
Definition outranking (params : MemoryRecallParams) (r : Row) (rows : Table)
  : list Row :=
  filter
    (fun x =>
       where_clause (conditions params) x &&
       order_leb SEARCH_ORDER x r &&
       negb (String.eqb (row_id x) (row_id r)))
    rows.

(** The retention invariant: [rows] is the table after the records [hist]
    were inserted under the bound [maxm]. *)
Definition retained (maxm : Z) (hist : list Row) (rows : Table) : Prop :=
  NoDup (map row_id hist) /\
  NoDup (map row_id rows) /\
  (Z.of_nat (List.length rows) = Z.min (Z.of_nat (List.length hist)) maxm)%Z /\
  (forall s, In s rows -> exists r0, In r0 hist /\ same_record s r0) /\
  (forall e, In e hist ->
     In (row_id e) (map row_id rows) \/
     ((Z.of_nat (List.length rows) = maxm)%Z /\
      forall s, In s rows -> ranks_no_higher e s)).

End Run.

(* ------------------------------------------------------------------------- *)
(** ** Concrete plugins used in the examples *)

Module Demo.
Import Types Sql Lance Plugin Run.

(** An engine that never fails: every text embeds to the same vector and a
    search returns the first [k] rows of the vector table at distance 0. *)
Definition eng : Engine :=
  {| embed := fun _ _ => Some [1%Q];
     search := fun tbl _ k =>
       Some (sql_limit k (map (fun v => mkHit (v_id v) (Some 0%Q)) tbl));
     add_ok := fun _ => true;
     delete_ok := fun _ => true |}.

Definition cfg : PluginConfig := DEFAULT_CONFIG "/home/user".

Definition with_max (c : PluginConfig) (n : Z) : PluginConfig :=
  mkConfig (dataDir c) n (defaultImportance c) (noisePatterns c)
           (embeddingModel c) (enableEmbeddings c).

Definition without_embeddings (c : PluginConfig) : PluginConfig :=
  mkConfig (dataDir c) (maxMemories c) (defaultImportance c) (noisePatterns c)
           (embeddingModel c) false.

Definition say (t : string) (imp : option Q) : MemoryStoreParams :=
  mkStoreParams t None imp None None.

Definition ask (q : string) (md : option Mode) : MemoryRecallParams :=
  mkRecallParams q None None None None None md.

Definition ask_limit (q : string) (n : Z) : MemoryRecallParams :=
  mkRecallParams q (Some n) None None None None (Some mode_structured).

Definition t1 : string := "2026-01-01T10:00:00.001Z".
Definition t2 : string := "2026-01-01T10:00:00.002Z".
Definition t3 : string := "2026-01-01T10:00:00.003Z".
Definition t4 : string := "2026-01-01T10:00:00.004Z".
Definition t5 : string := "2026-01-01T10:00:00.005Z".
Definition t6 : string := "2026-01-01T10:00:00.006Z".
Definition t7 : string := "2026-01-01T10:00:00.007Z".

(** The state a run ends in ([st] itself if a call throws). *)
Definition after (st : State) (evs : list Event) : State :=
  match run st evs with
  | Ok st' => st'
  | Throw _ => st
  end.

Definition rows_of (st : State) : Table :=
  match db st with Some rows => rows | None => [] end.

(** The records a call to [recall] returned (none if it threw). *)
Definition answers (r : result (list Memory)) : list Memory :=
  match r with Ok l => l | Throw _ => [] end.

Definition fresh : State := init cfg true.
Definition fresh_max (n : Z) : State := init (with_max cfg n) true.
Definition fresh_sqlite_only : State := init (without_embeddings cfg) true.

(** A record is stored and forgotten while its embedding is still being
    computed; the embedding job then completes, and a second record is
    stored whose embedding job is still pending. *)
Definition orphan_state : State :=
  let s1 := after fresh [EvStore (say "dark mode in the editor" None) "u1" t1] in
  let s2 :=
    match forget eng s1 (mkForgetParams (Some "u1") None) with
    | Ok (s, _) => s
    | Throw _ => s1
    end in
  let s3 := step_pending eng s2 0 in
  after s3 [EvStore (say "User prefers dark mode" None) "u2" t2].

(** The runs and parameters of the examples. *)
Definition one_store : list Event :=
  [EvStore (say "User prefers dark mode" None) "u1" t1].

Definition two_stores : list Event :=
  [EvStore (say "User prefers dark mode" None) "u1" t1;
   EvStore (say "User lives in Winterthur" None) "u2" t2].

Definition three_alphas : list Event :=
  [EvStore (say "alpha one" None) "u1" t1;
   EvStore (say "alpha two" None) "u2" t2;
   EvStore (say "alpha three" None) "u3" t3].

Definition five_alphas : list Event :=
  [EvStore (say "alpha one" (Some (9 # 10)%Q)) "u1" t1;
   EvStore (say "alpha two" (Some (9 # 10)%Q)) "u2" t2;
   EvStore (say "alpha three" (Some (9 # 10)%Q)) "u3" t3;
   EvStore (say "alpha four" (Some (9 # 10)%Q)) "u4" t4;
   EvStore (say "alpha five" (Some (9 # 10)%Q)) "u5" t5].

Definition retention_run : list Event :=
  [EvStore (say "alpha" (Some (5 # 10)%Q)) "u1" t1;
   EvStore (say "beta" (Some (9 # 10)%Q)) "u2" t2;
   EvJob eng 0;
   EvStore (say "gamma" (Some (7 # 10)%Q)) "u3" t3].

(** The six memories stored by the repository's test script. *)
Definition test_run : list Event :=
  [EvStore (mkStoreParams "User prefers dark mode in all applications"
              (Some preference) (Some (9 # 10)%Q) None None) "u1" t1;
   EvStore (mkStoreParams "User lives in Winterthur, Switzerland"
              (Some fact) (Some (8 # 10)%Q) None None) "u2" t2;
   EvStore (mkStoreParams "Decided to use TypeScript for the Betty project"
              (Some decision) (Some (85 # 100)%Q) None None) "u3" t3;
   EvStore (mkStoreParams "Meeting with investors on Thursday at 14:04"
              (Some conversation) (Some (7 # 10)%Q) None None) "u4" t4;
   EvStore (mkStoreParams "Emma birthday party planning for next month"
              (Some entity) (Some (75 # 100)%Q) None None) "u5" t5;
   EvStore (mkStoreParams "ok" (Some conversation) None None None) "u6" t6].

Definition dark_mode : MemoryStoreParams :=
  mkStoreParams "User prefers dark mode" (Some preference) (Some (9 # 10)%Q) None
    (Some (JObj [("source", JStr "chat")])).

Definition dark_mode_run : list Event := [EvStore dark_mode "u1" t1].

(** The state a call to [forget] left ([fresh] if it threw). *)
Definition answers_state (r : result (State * Z)) : State :=
  match r with Ok (st, _) => st | Throw _ => fresh end.

(** An engine whose every call throws. *)
Definition eng_down : Engine :=
  {| embed := fun _ _ => None;
     search := fun _ _ _ => None;
     add_ok := fun _ => false;
     delete_ok := fun _ => false |}.

End Demo.

(* ------------------------------------------------------------------------- *)
(** ** Notions used by the statements about results *)

Module Notions.
Import Types Sql Lance Plugin.

(** [a] may come before [b] in a result ordered by importance descending,
    then createdAt descending. *)
Definition memory_precedes (a b : Memory) : Prop :=
  (importance b < importance a)%Q \/
  ((importance b == importance a)%Q /\
   String.leb (createdAt b) (createdAt a) = true).

(** The [_distance] of a hit, as [r._distance || 0] reads it. *)
Definition distance_or_0 (h : Hit) : Q :=
  match h_distance h with Some d => d | None => 0%Q end.

(** [recall] takes the structured path: the query type is [structured] or
    embeddings are disabled. *)
Definition structured_path (st : State) (params : MemoryRecallParams) : Prop :=
  resolve_mode params = Router.structured \/ enableEmbeddings (config st) = false.

End Notions.

(* ------------------------------------------------------------------------- *)
(** * Properties *)

Import JsString Regex Router Types Sql Lance Plugin Run Notions.

(** ** The model on the repository's own examples *)

(** The routing table of the README. *)
Example readme_routing :
  map detectQueryType
      ["What did you do Thursday at 14:04?"; "Find conversations about dark mode";
       "What is my email address?"; "Similar ideas to X"]
  = [structured; semantic; structured; semantic].
Proof. vm_compute. reflexivity. Qed.

Example split_example :
  map of_chars (split_ws (chars " what  happened last Thursday? "))
  = [""; "what"; "happened"; "last"; "Thursday?"; ""].
Proof. vm_compute. reflexivity. Qed.

Example search_words_example :
  search_words "What did you do Thursday at 14:04?" = ["do"; "thursday"; "at"; "14:04?"].
Proof. vm_compute. reflexivity. Qed.

(** Steps 5, 8 and 9 of the test script. *)
Example test_temporal_query :
  map id
    (Demo.answers
       (recall Demo.eng (Demo.after Demo.fresh Demo.test_run)
          (Demo.ask "Thursday 14:04" (Some mode_structured))))
  = ["u4"].
Proof. vm_compute. reflexivity. Qed.

Example test_noise_filtering :
  map id
    (Demo.answers
       (recall Demo.eng (Demo.after Demo.fresh Demo.test_run)
          (mkRecallParams "ok" None None None None (Some false) None)))
  = ["u6"] /\
  recall Demo.eng (Demo.after Demo.fresh Demo.test_run)
    (mkRecallParams "ok" None None None None (Some true) None)
  = Ok [].
Proof. split; vm_compute; reflexivity. Qed.

Example test_forget_by_query :
  exists st',
    forget Demo.eng (Demo.after Demo.fresh Demo.test_run)
      (mkForgetParams None (Some "Switzerland")) = Ok (st', 1%Z) /\
    map row_id (Demo.rows_of st') = ["u1"; "u3"; "u4"; "u5"; "u6"] /\
    recall Demo.eng st' (Demo.ask "Winterthur" (Some mode_structured)) = Ok [].
Proof.
  eexists. split; [vm_compute; reflexivity|].
  split; vm_compute; reflexivity.
Qed.

(** ** Order of TEXT values and of ORDER BY keys *)

Section StringOrder.

Lemma ascii_compare_refl (a : ascii) : Ascii.compare a a = Eq.
Proof. unfold Ascii.compare. apply N.compare_refl. Qed.

Lemma string_compare_refl (s : string) : String.compare s s = Eq.
Proof.
  induction s as [|c s IH]; simpl; [reflexivity|].
  now rewrite ascii_compare_refl.
Qed.

Lemma ascii_compare_lt_trans (a b c : ascii) :
  Ascii.compare a b = Lt -> Ascii.compare b c = Lt -> Ascii.compare a c = Lt.
Proof.
  unfold Ascii.compare. rewrite !N.compare_lt_iff. apply N.lt_trans.
Qed.

Lemma string_compare_lt_trans (s1 s2 s3 : string) :
  String.compare s1 s2 = Lt -> String.compare s2 s3 = Lt ->
  String.compare s1 s3 = Lt.
Proof.
  revert s2 s3.
  induction s1 as [|a s1 IH]; intros [|b s2] [|c s3]; simpl; try congruence.
  destruct (Ascii.compare a b) eqn:Eab; try discriminate.
  - apply Ascii.compare_eq_iff in Eab; subst b.
    destruct (Ascii.compare a c); try congruence. apply IH.
  - intros _.
    destruct (Ascii.compare b c) eqn:Ebc; try discriminate.
    + apply Ascii.compare_eq_iff in Ebc; subst c. now rewrite Eab.
    + intros _. now rewrite (ascii_compare_lt_trans a b c).
Qed.

Lemma string_leb_refl (s : string) : String.leb s s = true.
Proof. unfold String.leb. now rewrite string_compare_refl. Qed.

Lemma string_leb_trans (s1 s2 s3 : string) :
  String.leb s1 s2 = true -> String.leb s2 s3 = true -> String.leb s1 s3 = true.
Proof.
  unfold String.leb.
  destruct (String.compare s1 s2) eqn:E12; try discriminate; intros _.
  - apply String.compare_eq_iff in E12; now subst.
  - destruct (String.compare s2 s3) eqn:E23; try discriminate; intros _.
    + apply String.compare_eq_iff in E23; subst. now rewrite E12.
    + now rewrite (string_compare_lt_trans s1 s2 s3).
Qed.

End StringOrder.

Lemma prune_order_leb_iff (a b : Row) :
  order_leb PRUNE_ORDER a b = true <-> ranks_no_higher a b.
Proof.
  unfold order_leb, PRUNE_ORDER, ranks_no_higher, order_cmp, cmp_importance,
    cmp_created_at, String.leb.
  destruct (Qcompare_spec (row_importance a) (row_importance b)) as [E|L|G].
  - split.
    + intros H. right. split; [exact E|].
      destruct (String.compare (created_at a) (created_at b)); congruence.
    + intros [L|[_ H]].
      * rewrite E in L. exfalso. exact (Qlt_irrefl _ L).
      * destruct (String.compare (created_at a) (created_at b)); congruence.
  - split; [intros _; now left | reflexivity].
  - split; [discriminate|].
    intros [L|[E _]].
    + exfalso. exact (Qlt_irrefl _ (Qlt_trans _ _ _ L G)).
    + rewrite E in G. exfalso. exact (Qlt_irrefl _ G).
Qed.

Lemma search_order_leb_iff (a b : Row) :
  order_leb SEARCH_ORDER a b = true <-> ranks_no_higher b a.
Proof.
  rewrite <- prune_order_leb_iff.
  unfold order_leb, SEARCH_ORDER, PRUNE_ORDER, order_cmp. reflexivity.
Qed.

Lemma ranks_no_higher_trans (a b c : Row) :
  ranks_no_higher a b -> ranks_no_higher b c -> ranks_no_higher a c.
Proof.
  unfold ranks_no_higher.
  intros [L1|[E1 S1]] [L2|[E2 S2]].
  - left. exact (Qlt_trans _ _ _ L1 L2).
  - left. rewrite <- E2. exact L1.
  - left. rewrite E1. exact L2.
  - right. split.
    + rewrite E1. exact E2.
    + exact (string_leb_trans _ _ _ S1 S2).
Qed.

Lemma ranks_no_higher_total (a b : Row) :
  ranks_no_higher a b \/ ranks_no_higher b a.
Proof.
  unfold ranks_no_higher.
  destruct (Qcompare_spec (row_importance a) (row_importance b)) as [E|L|G].
  - destruct (String.leb_total (created_at a) (created_at b)) as [H|H].
    + left. right. now split.
    + right. right. split; [now symmetry | exact H].
  - left. now left.
  - right. now left.
Qed.

(** ** Insertion sort *)

Section SortFacts.
Context {A : Type} (leb : A -> A -> bool).
Hypothesis leb_total : forall a b, leb a b = true \/ leb b a = true.
Hypothesis leb_trans : forall a b c, leb a b = true -> leb b c = true -> leb a c = true.

Lemma insert_by_perm (x : A) (l : list A) : Permutation (x :: l) (insert_by leb x l).
Proof.
  induction l as [|y l IH]; simpl; [reflexivity|].
  destruct (leb x y); [reflexivity|].
  rewrite perm_swap. now apply perm_skip.
Qed.

Lemma sort_by_perm (l : list A) : Permutation l (sort_by leb l).
Proof.
  induction l as [|x l IH]; simpl; [reflexivity|].
  rewrite <- insert_by_perm. now apply perm_skip.
Qed.

Lemma insert_by_sorted (x : A) (l : list A) :
  StronglySorted (fun a b => leb a b = true) l ->
  StronglySorted (fun a b => leb a b = true) (insert_by leb x l).
Proof.
  induction 1 as [|y l Hs IH Hy]; simpl.
  - repeat constructor.
  - destruct (leb x y) eqn:E.
    + constructor; [now constructor|].
      constructor; [exact E|].
      eapply Forall_impl; [|exact Hy]. intros z Hz. now apply (leb_trans x y z).
    + constructor; [exact IH|].
      assert (Hyx : leb y x = true) by (destruct (leb_total x y); congruence).
      eapply Permutation_Forall; [apply insert_by_perm|].
      now constructor.
Qed.

Lemma sort_by_sorted (l : list A) :
  StronglySorted (fun a b => leb a b = true) (sort_by leb l).
Proof.
  induction l as [|x l IH]; simpl; [constructor|].
  now apply insert_by_sorted.
Qed.

End SortFacts.

Lemma StronglySorted_app_inv {A : Type} (R : A -> A -> Prop) (l1 l2 : list A) :
  StronglySorted R (l1 ++ l2) ->
  forall a b, In a l1 -> In b l2 -> R a b.
Proof.
  induction l1 as [|x l1 IH]; simpl; intros Hs a b Ha Hb; [contradiction|].
  inversion Hs as [|? ? Hs' Hall]; subst.
  destruct Ha as [<-|Ha].
  - rewrite Forall_forall in Hall. apply Hall. apply in_or_app. now right.
  - now apply IH.
Qed.

Lemma Permutation_filter_compat {A : Type} (f : A -> bool) (l l' : list A) :
  Permutation l l' -> Permutation (filter f l) (filter f l').
Proof.
  induction 1 as [|x l l' _ IH|x y l|l l' l'' _ IH1 _ IH2]; simpl.
  - constructor.
  - destruct (f x); [now constructor | exact IH].
  - destruct (f x), (f y); try reflexivity. apply perm_swap.
  - now transitivity (filter f l').
Qed.

Lemma order_by_perm terms (rows : list Row) : Permutation rows (order_by terms rows).
Proof. apply sort_by_perm. Qed.

Lemma StronglySorted_weaken {A : Type} (R R' : A -> A -> Prop) (l : list A) :
  (forall a b, R a b -> R' a b) -> StronglySorted R l -> StronglySorted R' l.
Proof.
  intros HR. induction 1 as [|x l _ IH Hall]; constructor; [exact IH|].
  eapply Forall_impl; [|exact Hall]. intros b. apply HR.
Qed.

Lemma order_by_prune_sorted (rows : list Row) :
  StronglySorted ranks_no_higher (order_by PRUNE_ORDER rows).
Proof.
  unfold order_by.
  apply StronglySorted_weaken with (R := fun a b => order_leb PRUNE_ORDER a b = true).
  - intros a b. apply prune_order_leb_iff.
  - apply sort_by_sorted.
    + intros a b. rewrite !prune_order_leb_iff. apply ranks_no_higher_total.
    + intros a b c. rewrite !prune_order_leb_iff. apply ranks_no_higher_trans.
Qed.

Lemma order_by_search_sorted (rows : list Row) :
  StronglySorted (fun a b => ranks_no_higher b a) (order_by SEARCH_ORDER rows).
Proof.
  unfold order_by.
  apply StronglySorted_weaken with (R := fun a b => order_leb SEARCH_ORDER a b = true).
  - intros a b. apply search_order_leb_iff.
  - apply sort_by_sorted.
    + intros a b. rewrite !search_order_leb_iff.
      destruct (ranks_no_higher_total a b); [now right | now left].
    + intros a b c. rewrite !search_order_leb_iff. intros H1 H2.
      exact (ranks_no_higher_trans _ _ _ H2 H1).
Qed.

(** ** DELETE and pruneOldMemories on rows *)

Lemma id_in_iff (ids : list string) (i : string) : id_in ids i = true <-> In i ids.
Proof.
  unfold id_in. rewrite existsb_exists. split.
  - intros [x [Hx E]]. apply String.eqb_eq in E. now subst.
  - intros H. exists i. split; [exact H | apply String.eqb_refl].
Qed.

Lemma has_id_iff (i : string) (rows : Table) :
  has_id i rows = true <-> In i (map row_id rows).
Proof.
  unfold has_id. rewrite existsb_exists, in_map_iff. split.
  - intros [r [Hr E]]. apply String.eqb_eq in E. now exists r.
  - intros [r [E Hr]]. exists r. split; [exact Hr|]. now apply String.eqb_eq.
Qed.

Lemma filter_all {A : Type} (f : A -> bool) (l : list A) :
  (forall x, In x l -> f x = true) -> filter f l = l.
Proof.
  induction l as [|x l IH]; simpl; intros H; [reflexivity|].
  rewrite (H x (or_introl eq_refl)). f_equal. apply IH. intros y Hy. apply H. now right.
Qed.

Lemma filter_none {A : Type} (f : A -> bool) (l : list A) :
  (forall x, In x l -> f x = false) -> filter f l = [].
Proof.
  induction l as [|x l IH]; simpl; intros H; [reflexivity|].
  rewrite (H x (or_introl eq_refl)). apply IH. intros y Hy. apply H. now right.
Qed.

Lemma NoDup_app_disjoint {A : Type} (l1 l2 : list A) :
  NoDup (l1 ++ l2) -> forall x, In x l1 -> In x l2 -> False.
Proof.
  induction l1 as [|a l1 IH]; simpl; intros Hnd x H1 H2; [contradiction|].
  inversion Hnd as [|? ? Hnotin Hnd']; subst.
  destruct H1 as [<-|H1].
  - apply Hnotin. apply in_or_app. now right.
  - exact (IH Hnd' x H1 H2).
Qed.

(** Deleting the ids of the first [d] rows of a sorted copy of the table
    leaves the other rows of that sorted copy. *)
Lemma delete_sorted_prefix terms (rows : Table) (d : nat) :
  NoDup (map row_id rows) ->
  let sorted := order_by terms rows in
  Permutation (fst (delete_ids (map row_id (firstn d sorted)) rows)) (skipn d sorted).
Proof.
  intros Hnd sorted. unfold delete_ids; simpl.
  set (f := fun r : Row => negb (id_in (map row_id (firstn d sorted)) (row_id r))).
  assert (Hp : Permutation rows sorted) by apply order_by_perm.
  rewrite (Permutation_filter_compat f _ _ Hp).
  rewrite <- (firstn_skipn d sorted) at 1.
  rewrite filter_app.
  assert (Hnd' : NoDup (map row_id (firstn d sorted) ++ map row_id (skipn d sorted))).
  { rewrite <- map_app, firstn_skipn.
    eapply Permutation_NoDup; [|exact Hnd]. now apply Permutation_map. }
  rewrite filter_none, filter_all; [reflexivity| |].
  - intros x Hx. unfold f. apply negb_true_iff.
    destruct (id_in _ (row_id x)) eqn:E; [|reflexivity].
    apply id_in_iff in E. exfalso.
    apply (NoDup_app_disjoint _ _ Hnd' (row_id x) E). now apply in_map.
  - intros x Hx. unfold f. apply negb_false_iff. apply id_in_iff. now apply in_map.
Qed.

Lemma prune_db (st : State) (rows : Table) :
  db st = Some rows ->
  config (pruneOldMemories st) = config st /\
  db (pruneOldMemories st) =
    Some (if (maxMemories (config st) <? Z.of_nat (List.length rows))%Z
          then fst (delete_ids
                      (map row_id
                         (sql_limit (Z.of_nat (List.length rows) - maxMemories (config st))
                                    (order_by PRUNE_ORDER rows)))
                      rows)
          else rows).
Proof.
  intros Hdb. unfold pruneOldMemories. rewrite Hdb. cbn [stats total].
  destruct (maxMemories (config st) <? Z.of_nat (List.length rows))%Z; [|now split].
  destruct (map row_id _) as [|i ids] eqn:E.
  - split; [reflexivity|]. rewrite Hdb. f_equal. unfold delete_ids; simpl.
    symmetry. now apply filter_all.
  - destruct (lanceTable st); now split.
Qed.

(** What pruning does to a table that exceeds [maxMemories]. *)
Lemma prune_rows_spec (maxm : Z) (rows : Table) :
  NoDup (map row_id rows) ->
  (0 <= maxm < Z.of_nat (List.length rows))%Z ->
  let victims := sql_limit (Z.of_nat (List.length rows) - maxm) (order_by PRUNE_ORDER rows) in
  let rows' := fst (delete_ids (map row_id victims) rows) in
  Permutation rows (victims ++ rows') /\
  Z.of_nat (List.length rows') = maxm /\
  (forall v s, In v victims -> In s rows' -> ranks_no_higher v s).
Proof.
  intros Hnd Hm victims rows'.
  set (d := Z.to_nat (Z.of_nat (List.length rows) - maxm)).
  assert (Hv : victims = firstn d (order_by PRUNE_ORDER rows)).
  { unfold victims, sql_limit.
    destruct (Z.ltb_spec (Z.of_nat (List.length rows) - maxm) 0); [lia | reflexivity]. }
  assert (Hr : Permutation rows' (skipn d (order_by PRUNE_ORDER rows))).
  { unfold rows'. rewrite Hv. now apply delete_sorted_prefix. }
  assert (Hlen : List.length (order_by PRUNE_ORDER rows) = List.length rows).
  { symmetry. apply Permutation_length, order_by_perm. }
  repeat split.
  - rewrite (order_by_perm PRUNE_ORDER rows) at 1.
    rewrite <- (firstn_skipn d (order_by PRUNE_ORDER rows)) at 1.
    rewrite Hv. apply Permutation_app_head. now symmetry.
  - rewrite (Permutation_length Hr), length_skipn, Hlen. unfold d. lia.
  - intros v s Hin Hs.
    apply (StronglySorted_app_inv ranks_no_higher
             (firstn d (order_by PRUNE_ORDER rows)) (skipn d (order_by PRUNE_ORDER rows))).
    + rewrite firstn_skipn. apply order_by_prune_sorted.
    + now rewrite <- Hv.
    + eapply Permutation_in; [exact Hr | exact Hs].
Qed.

(** ** The retention invariant along a run (C3) *)

Lemma same_record_keys (a b : Row) :
  same_record a b ->
  row_id a = row_id b /\
  row_importance a = row_importance b /\
  created_at a = created_at b.
Proof. intros [-> | ->]; now repeat split. Qed.

Lemma same_record_trans (a b c : Row) :
  same_record a b -> same_record b c -> same_record a c.
Proof.
  intros [-> | ->] [-> | ->]; unfold same_record; auto.
Qed.

Lemma same_record_ranks_l (e e' s : Row) :
  same_record e' e -> ranks_no_higher e' s -> ranks_no_higher e s.
Proof.
  intros H. apply same_record_keys in H. destruct H as [_ [Hi Hc]].
  unfold ranks_no_higher. now rewrite Hi, Hc.
Qed.

Lemma same_record_ranks_r (e s s' : Row) :
  same_record s' s -> ranks_no_higher e s -> ranks_no_higher e s'.
Proof.
  intros H. apply same_record_keys in H. destruct H as [_ [Hi Hc]].
  unfold ranks_no_higher. now rewrite Hi, Hc.
Qed.

Lemma NoDup_map_inj {A B : Type} (f : A -> B) (l : list A) (x y : A) :
  NoDup (map f l) -> In x l -> In y l -> f x = f y -> x = y.
Proof.
  induction l as [|a l IH]; simpl; intros Hnd Hx Hy E; [contradiction|].
  inversion Hnd as [|? ? Hnotin Hnd']; subst.
  destruct Hx as [<-|Hx], Hy as [<-|Hy]; try reflexivity.
  - exfalso. apply Hnotin. rewrite E. now apply in_map.
  - exfalso. apply Hnotin. rewrite <- E. now apply in_map.
  - now apply IH.
Qed.

Lemma NoDup_snoc {A : Type} (l : list A) (a : A) :
  NoDup l -> ~ In a l -> NoDup (l ++ [a]).
Proof.
  intros Hnd Hnot. apply NoDup_rev in Hnd.
  rewrite <- (rev_involutive (l ++ [a])). apply NoDup_rev.
  rewrite rev_app_distr. simpl. constructor; [|exact Hnd].
  now rewrite <- in_rev.
Qed.

Lemma store_ok (st : State) (rows : Table) params uuid now :
  db st = Some rows ->
  ~ In uuid (map row_id rows) ->
  let m := new_memory (config st) params uuid now in
  let rows1 := rows ++ [row_of_memory m] in
  exists st',
    store st params uuid now = Ok (st', m) /\
    config st' = config st /\
    db st' =
      Some (if (maxMemories (config st) <? Z.of_nat (List.length rows1))%Z
            then fst (delete_ids
                        (map row_id
                           (sql_limit (Z.of_nat (List.length rows1) - maxMemories (config st))
                                      (order_by PRUNE_ORDER rows1)))
                        rows1)
            else rows1).
Proof.
  intros Hdb Hfresh m rows1. unfold store. rewrite Hdb.
  cbv zeta. fold m. unfold insert_row.
  assert (Hid : has_id (row_id (row_of_memory m)) rows = false).
  { destruct (has_id _ rows) eqn:E; [|reflexivity].
    apply has_id_iff in E. now elim Hfresh. }
  rewrite Hid. simpl bind.
  set (st2 := if enableEmbeddings (config st) && lanceDb st then _ else _).
  assert (H2 : db st2 = Some rows1 /\ config st2 = config st).
  { unfold st2. destruct (enableEmbeddings (config st) && lanceDb st); now split. }
  destruct H2 as [Hdb2 Hcfg2].
  destruct (prune_db st2 rows1 Hdb2) as [Hc Hd].
  exists (pruneOldMemories st2). split; [reflexivity|]. split; [congruence|].
  rewrite Hd, Hcfg2. reflexivity.
Qed.

Lemma store_retained (st : State) (rows hist : Table) params uuid now :
  db st = Some rows ->
  (0 <= maxMemories (config st))%Z ->
  retained (maxMemories (config st)) hist rows ->
  ~ In uuid (map row_id hist) ->
  let m := new_memory (config st) params uuid now in
  exists st' rows',
    store st params uuid now = Ok (st', m) /\
    config st' = config st /\
    db st' = Some rows' /\
    retained (maxMemories (config st)) (hist ++ [row_of_memory m]) rows'.
Proof.
  intros Hdb Hmax (Hndh & Hnd & Hlen & Hsub & Hev) Hfresh m.
  set (r := row_of_memory m).
  assert (Hrid : row_id r = uuid) by reflexivity.
  assert (Hfresh' : ~ In uuid (map row_id rows)).
  { intros Hin. apply in_map_iff in Hin. destruct Hin as [s [Es Hs]].
    destruct (Hsub s Hs) as [r0 [Hr0 Hsr]].
    apply same_record_keys in Hsr. destruct Hsr as [Eid _].
    apply Hfresh. rewrite <- Es, Eid. now apply in_map. }
  destruct (store_ok st rows params uuid now Hdb Hfresh') as [st' [Hst [Hcfg Hdb']]].
  fold m in Hst, Hdb'. fold r in Hdb'.
  set (rows1 := rows ++ [r]) in *.
  set (maxm := maxMemories (config st)) in *.
  assert (Hnd1 : NoDup (map row_id rows1)).
  { unfold rows1. rewrite map_app. simpl. apply NoDup_snoc; [exact Hnd | exact Hfresh']. }
  assert (Hndh1 : NoDup (map row_id (hist ++ [r]))).
  { rewrite map_app. simpl. apply NoDup_snoc; [exact Hndh | exact Hfresh]. }
  assert (Hlen1 : List.length rows1 = S (List.length rows)).
  { unfold rows1. rewrite length_app. simpl. lia. }
  assert (Hsub1 : forall s, In s rows1 -> exists r0, In r0 (hist ++ [r]) /\ same_record s r0).
  { intros s Hs. apply in_app_or in Hs. destruct Hs as [Hs|[<-|[]]].
    - destruct (Hsub s Hs) as [r0 [Hr0 Hsr]]. exists r0. split; [|exact Hsr].
      apply in_or_app. now left.
    - exists r. split; [apply in_or_app; right; now left | now left]. }
  exists st'. eexists. split; [exact Hst|]. split; [exact Hcfg|]. split; [exact Hdb'|].
  destruct (Z.ltb_spec maxm (Z.of_nat (List.length rows1))) as [Hfull|Hroom].
  - (* the table exceeds the bound: one row goes *)
    destruct (prune_rows_spec maxm rows1 Hnd1 (conj Hmax Hfull)) as [Hperm [Hlen' Hrank]].
    set (victims := sql_limit (Z.of_nat (List.length rows1) - maxm)
                              (order_by PRUNE_ORDER rows1)) in *.
    set (rows' := fst (delete_ids (map row_id victims) rows1)) in *.
    assert (Hndvr : NoDup (map row_id victims ++ map row_id rows')).
    { rewrite <- map_app. eapply Permutation_NoDup; [|exact Hnd1].
      now apply Permutation_map. }
    assert (Hin' : forall s, In s rows' -> In s rows1).
    { intros s Hs. eapply Permutation_in; [symmetry; exact Hperm|].
      apply in_or_app. now right. }
    assert (Hgone : forall x, In x rows1 -> ~ In (row_id x) (map row_id rows') -> In x victims).
    { intros x Hx Hnot. apply (Permutation_in _ Hperm) in Hx.
      apply in_app_or in Hx. destruct Hx as [Hx|Hx]; [exact Hx|].
      elim Hnot. now apply in_map. }
    repeat split.
    + exact Hndh1.
    + apply NoDup_app_remove_l in Hndvr. exact Hndvr.
    + rewrite Hlen', length_app. simpl. lia.
    + intros s Hs. apply Hsub1. now apply Hin'.
    + intros e He.
      destruct (in_dec string_dec (row_id e) (map row_id rows')) as [Hin|Hnot];
        [now left | right].
      split; [exact Hlen'|]. intros s Hs.
      apply in_app_or in He. destruct He as [He|[<-|[]]].
      * destruct (Hev e He) as [Hine|[Hfullrows Hdom]].
        -- apply in_map_iff in Hine. destruct Hine as [e' [Eid He']].
           destruct (Hsub e' He') as [r0 [Hr0 Hsr]].
           assert (r0 = e).
           { apply (NoDup_map_inj row_id hist); try assumption.
             destruct (same_record_keys _ _ Hsr) as [E _]. congruence. }
           subst r0.
           apply (same_record_ranks_l e e' s Hsr).
           apply Hrank; [|exact Hs].
           apply Hgone; [unfold rows1; apply in_or_app; now left|].
           now rewrite Eid.
        -- assert (Hs1 := Hin' s Hs). apply in_app_or in Hs1.
           destruct Hs1 as [Hs1|[<-|[]]]; [now apply Hdom|].
           (* [r] stays: some older row was the victim *)
           assert (Hvlen : List.length victims = 1%nat).
           { apply Permutation_length in Hperm. rewrite length_app in Hperm. lia. }
           destruct victims as [|v vs] eqn:Ev; [discriminate|].
           assert (Hv : In v (v :: vs)) by now left.
           assert (Hvr : ranks_no_higher v r) by (apply Hrank; assumption).
           assert (Hv1 : In v rows1).
           { eapply Permutation_in; [symmetry; exact Hperm|]. now left. }
           apply in_app_or in Hv1. destruct Hv1 as [Hv1|[Hv1|[]]].
           ++ exact (ranks_no_higher_trans _ _ _ (Hdom v Hv1) Hvr).
           ++ exfalso. subst v.
              apply (NoDup_app_disjoint _ _ Hndvr (row_id r)); [now left|now apply in_map].
      * apply Hrank; [|exact Hs]. apply Hgone; [|exact Hnot].
        unfold rows1. apply in_or_app. right. now left.
  - (* room left: nothing is deleted *)
    repeat split.
    + exact Hndh1.
    + exact Hnd1.
    + rewrite length_app. simpl. lia.
    + exact Hsub1.
    + intros e He. left. apply in_app_or in He. destruct He as [He|[<-|[]]].
      * destruct (Hev e He) as [Hine|[Hfullrows _]]; [|lia].
        unfold rows1. rewrite map_app. apply in_or_app. now left.
      * unfold rows1. rewrite map_app. apply in_or_app. right. now left.
Qed.

Lemma mark_embedded_ids (i : string) (rows : Table) :
  map row_id (mark_embedded i rows) = map row_id rows.
Proof.
  unfold mark_embedded. rewrite map_map. apply map_ext.
  intros r. now destruct (String.eqb (row_id r) i).
Qed.

Lemma mark_embedded_In (i : string) (rows : Table) (s : Row) :
  In s (mark_embedded i rows) -> exists s0, In s0 rows /\ same_record s s0.
Proof.
  unfold mark_embedded. rewrite in_map_iff. intros [s0 [E Hs0]].
  exists s0. split; [exact Hs0|]. subst s.
  destruct (String.eqb (row_id s0) i); [now right | now left].
Qed.

Lemma mark_embedded_retained (maxm : Z) (hist rows : Table) (i : string) :
  retained maxm hist rows -> retained maxm hist (mark_embedded i rows).
Proof.
  intros (Hndh & Hnd & Hlen & Hsub & Hev).
  assert (Hl : List.length (mark_embedded i rows) = List.length rows)
    by (unfold mark_embedded; apply length_map).
  repeat split.
  - exact Hndh.
  - now rewrite mark_embedded_ids.
  - now rewrite Hl.
  - intros s Hs. destruct (mark_embedded_In i rows s Hs) as [s0 [Hs0 Hsr]].
    destruct (Hsub s0 Hs0) as [r0 [Hr0 Hsr0]]. exists r0. split; [exact Hr0|].
    exact (same_record_trans _ _ _ Hsr Hsr0).
  - intros e He. rewrite mark_embedded_ids, Hl.
    destruct (Hev e He) as [Hin|[Hfull Hdom]]; [now left | right].
    split; [exact Hfull|]. intros s Hs.
    destruct (mark_embedded_In i rows s Hs) as [s0 [Hs0 Hsr]].
    exact (same_record_ranks_r e s0 s Hsr (Hdom s0 Hs0)).
Qed.

Lemma step_pending_db (eng : Engine) (st : State) (n : nat) (rows : Table) :
  db st = Some rows ->
  config (step_pending eng st n) = config st /\
  (db (step_pending eng st n) = Some rows \/
   exists i, db (step_pending eng st n) = Some (mark_embedded i rows)).
Proof.
  intros Hdb. unfold step_pending.
  destruct (nth_error (pending st) n) as [j|]; [|now split; [|left]].
  destruct j as [m|i]; simpl.
  - unfold storeEmbedding; simpl.
    destruct (embed eng _ _); [|now split; [|left]].
    destruct (add_ok eng _); simpl.
    + rewrite Hdb. simpl. split; [reflexivity|]. right. now exists (id m).
    + now split; [|left].
  - destruct (lanceTable st); [|now split; [|left]].
    destruct (delete_ok eng i); now split; [|left].
Qed.

Lemma stored_rows_ids (cfg : PluginConfig) (evs : list Event) :
  map row_id (stored_rows cfg evs) = stored_ids evs.
Proof.
  induction evs as [|[p u n|eng k] evs IH]; simpl; [reflexivity| |exact IH].
  now rewrite IH.
Qed.

Lemma run_retained (evs : list Event) :
  forall (st : State) (rows hist : Table),
    db st = Some rows ->
    (0 <= maxMemories (config st))%Z ->
    retained (maxMemories (config st)) hist rows ->
    NoDup (map row_id hist ++ stored_ids evs) ->
    exists st' rows',
      run st evs = Ok st' /\
      config st' = config st /\
      db st' = Some rows' /\
      retained (maxMemories (config st)) (hist ++ stored_rows (config st) evs) rows'.
Proof.
  induction evs as [|[p u n|eng k] evs IH]; intros st rows hist Hdb Hmax Hret Hnd.
  - exists st, rows. simpl. rewrite app_nil_r.
    split; [reflexivity|]. split; [reflexivity|]. now split.
  - simpl in Hnd.
    assert (Hfresh : ~ In u (map row_id hist)).
    { intros Hin. apply (NoDup_app_disjoint _ _ Hnd u Hin). now left. }
    destruct (store_retained st rows hist p u n Hdb Hmax Hret Hfresh)
      as [st1 [rows1 [Hst [Hcfg [Hdb1 Hret1]]]]].
    destruct (IH st1 rows1 (hist ++ [row_of_memory (new_memory (config st) p u n)]))
      as [st' [rows' [Hrun [Hcfg' [Hdb' Hret']]]]].
    + exact Hdb1.
    + now rewrite Hcfg.
    + now rewrite Hcfg.
    + rewrite map_app, <- app_assoc. exact Hnd.
    + exists st', rows'. simpl. rewrite Hst. simpl.
      rewrite Hcfg in Hcfg', Hret'. rewrite <- app_assoc in Hret'.
      split; [exact Hrun|]. split; [exact Hcfg'|]. now split.
  - simpl in Hnd.
    destruct (step_pending_db eng st k rows Hdb) as [Hcfg Hdb1].
    assert (Hex : exists rows1, db (step_pending eng st k) = Some rows1 /\
                    retained (maxMemories (config st)) hist rows1).
    { destruct Hdb1 as [H|[i H]].
      - now exists rows.
      - exists (mark_embedded i rows). split; [exact H|].
        now apply mark_embedded_retained. }
    destruct Hex as [rows1 [Hdb1' Hret1]].
    destruct (IH (step_pending eng st k) rows1 hist)
      as [st' [rows' [Hrun [Hcfg' [Hdb' Hret']]]]].
    + exact Hdb1'.
    + now rewrite Hcfg.
    + now rewrite Hcfg.
    + exact Hnd.
    + exists st', rows'. simpl. rewrite Hcfg in Hcfg', Hret'.
      split; [exact Hrun|]. split; [exact Hcfg'|]. now split.
Qed.

(** C3 (retention bound).  On a plugin that starts with an empty table and a
    bound [maxMemories >= 0], after [maxMemories + N] calls to [store] made
    one after the other with distinct ids (pending embedding jobs may
    complete in between): every call succeeds, exactly [maxMemories] rows
    remain, each of them is one of the stored records (with its embedding
    flag possibly set), and every stored record that is gone ranks no higher,
    by importance and then createdAt, than every record that remains; that
    is, the survivors are the [maxMemories] highest. *)
Theorem retention_bound (st0 : State) (evs : list Event) :
  db st0 = Some [] ->
  (0 <= maxMemories (config st0))%Z ->
  NoDup (stored_ids evs) ->
  (maxMemories (config st0) <= Z.of_nat (List.length (stored_ids evs)))%Z ->
  exists st rows,
    run st0 evs = Ok st /\
    db st = Some rows /\
    Z.of_nat (List.length rows) = maxMemories (config st0) /\
    NoDup (map row_id rows) /\
    (forall s, In s rows ->
       exists r0, In r0 (stored_rows (config st0) evs) /\ same_record s r0) /\
    (forall e s, In e (stored_rows (config st0) evs) ->
       ~ In (row_id e) (map row_id rows) ->
       In s rows -> ranks_no_higher e s).
Proof.
  intros Hdb Hmax Hnd Hn.
  destruct (run_retained evs st0 [] [] Hdb Hmax) as [st [rows [Hrun [_ [Hdb' Hret]]]]].
  - unfold retained. simpl. repeat split; try apply NoDup_nil; try lia; intros ? [].
  - exact Hnd.
  - simpl in Hret. destruct Hret as (_ & Hndr & Hlen & Hsub & Hev).
    exists st, rows. repeat split; try assumption.
    + rewrite Hlen, <- (length_map row_id), stored_rows_ids. lia.
    + intros e s He Hnot Hs.
      destruct (Hev e He) as [Hin|[_ Hdom]]; [contradiction | now apply Hdom].
Qed.

Lemma retention_bound_witness :
  exists st rows,
    run (Demo.fresh_max 2) Demo.retention_run = Ok st /\
    db st = Some rows /\
    Z.of_nat (List.length rows) = 2%Z /\
    NoDup (map row_id rows) /\
    (forall s, In s rows ->
       exists r0,
         In r0 (stored_rows (config (Demo.fresh_max 2)) Demo.retention_run) /\
         same_record s r0) /\
    (forall e s,
       In e (stored_rows (config (Demo.fresh_max 2)) Demo.retention_run) ->
       ~ In (row_id e) (map row_id rows) ->
       In s rows -> ranks_no_higher e s).
Proof.
  apply (retention_bound (Demo.fresh_max 2) Demo.retention_run).
  - reflexivity.
  - simpl. lia.
  - simpl. repeat constructor; simpl; intuition discriminate.
  - simpl. lia.
Defined.

Example retention_example :
  map row_id (Demo.rows_of (Demo.after (Demo.fresh_max 2) Demo.retention_run))
  = ["u2"; "u3"].
Proof. vm_compute. reflexivity. Qed.

(** ** LIKE and the words of a query *)

Lemma chars_of_chars (l : list ascii) : chars (of_chars l) = l.
Proof. apply list_ascii_of_string_of_list_ascii. Qed.

Lemma chars_app (s1 s2 : string) : chars (s1 ++ s2) = (chars s1 ++ chars s2)%list.
Proof.
  unfold chars. induction s1 as [|c s1 IH]; simpl; [reflexivity|]. now rewrite IH.
Qed.

Lemma chars_toLowerCase (s : string) : chars (toLowerCase s) = lower_chars (chars s).
Proof. unfold toLowerCase. apply chars_of_chars. Qed.

Lemma like_percent (p s : list ascii) :
  like_chars ("%"%char :: p) s =
  like_chars p s ||
  match s with [] => false | _ :: s' => like_chars ("%"%char :: p) s' end.
Proof. destruct s; reflexivity. Qed.

Lemma like_percent_here (p s : list ascii) :
  like_chars p s = true -> like_chars ("%"%char :: p) s = true.
Proof. intros H. rewrite like_percent, H. reflexivity. Qed.

Lemma like_percent_skip (p pre s : list ascii) :
  like_chars ("%"%char :: p) s = true -> like_chars ("%"%char :: p) (pre ++ s) = true.
Proof.
  intros H. induction pre as [|c pre IH]; [exact H|].
  change ((c :: pre) ++ s) with (c :: (pre ++ s)).
  rewrite like_percent. cbv beta iota. rewrite IH. apply orb_true_r.
Qed.

Lemma like_percent_all (s : list ascii) : like_chars ["%"%char] s = true.
Proof.
  induction s as [|c s IH]; [reflexivity|].
  rewrite like_percent. cbv beta iota. rewrite IH. apply orb_true_r.
Qed.

(** A word matches itself, also when it holds [%] or [_]. *)
Lemma like_self (w p s : list ascii) :
  like_chars p s = true -> like_chars (w ++ p) (w ++ s) = true.
Proof.
  intros H. induction w as [|c w IH]; [exact H|].
  destruct (Ascii.eqb_spec c "%") as [->|Hp].
  - change (like_chars ("%"%char :: (w ++ p)) ("%"%char :: (w ++ s)) = true).
    rewrite like_percent. cbv beta iota.
    apply orb_true_iff. right. now apply like_percent_here.
  - simpl. apply Ascii.eqb_neq in Hp. rewrite Hp.
    destruct (Ascii.eqb c "_"); [exact IH|].
    now rewrite Ascii.eqb_refl, IH.
Qed.

Lemma like_infix_self (w pre post : list ascii) :
  like_chars ("%"%char :: w ++ ["%"%char]) (pre ++ w ++ post) = true.
Proof.
  apply like_percent_skip, like_percent_here, like_self, like_percent_all.
Qed.

(** Every piece of [split(/\s+/)] occurs in the string. *)
Lemma split_ws_aux_infix (s : list ascii) :
  forall cur in_ws t,
    In t (split_ws_aux cur in_ws s) ->
    (exists pre post, s = pre ++ t ++ post) \/
    (exists t' post, t = rev cur ++ t' /\ s = t' ++ post).
Proof.
  induction s as [|c s IH]; intros cur in_ws t Ht; simpl in Ht.
  - destruct Ht as [<-|[]]. right. exists [], []. now rewrite app_nil_r.
  - assert (Hws : forall t0, In t0 (split_ws_aux [] true s) ->
                    exists pre post, c :: s = pre ++ t0 ++ post).
    { intros t0 H0. destruct (IH _ _ _ H0) as [[pre [post E]]|[t' [post [E1 E2]]]].
      - exists (c :: pre), post. now rewrite E.
      - exists [c], post. simpl in E1. subst t0. now rewrite E2. }
    destruct (is_space c).
    + destruct in_ws.
      * left. now apply Hws.
      * destruct Ht as [<-|Ht]; [|left; now apply Hws].
        right. exists [], (c :: s). now rewrite app_nil_r.
    + destruct (IH _ _ _ Ht) as [[pre [post E]]|[t' [post [E1 E2]]]].
      * left. exists (c :: pre), post. now rewrite E.
      * right. exists (c :: t'), post. split; [|now rewrite E2].
        rewrite E1. simpl. now rewrite <- app_assoc.
Qed.

Lemma split_ws_infix (s t : list ascii) :
  In t (split_ws s) -> exists pre post, s = pre ++ t ++ post.
Proof.
  intros Ht. destruct (split_ws_aux_infix s [] false t Ht)
    as [H|[t' [post [E1 E2]]]]; [exact H|].
  exists [], post. simpl in *. now subst.
Qed.

Lemma search_words_infix (q w : string) :
  In w (search_words q) ->
  exists pre post, chars (toLowerCase q) = pre ++ chars w ++ post.
Proof.
  unfold search_words, query_words. intros Hw.
  apply filter_In in Hw. destruct Hw as [Hw _].
  apply filter_In in Hw. destruct Hw as [Hw _].
  apply in_map_iff in Hw. destruct Hw as [t [<- Ht]].
  rewrite chars_of_chars. now apply split_ws_infix.
Qed.

(** A row whose [text_lower] is the lower-cased query passes the text
    condition of that query. *)
Lemma cond_text_self (q : string) (r : Row) :
  text_lower r = toLowerCase q ->
  search_words q <> [] ->
  cond_text (search_words q) r = true.
Proof.
  intros Hr Hne. unfold cond_text.
  destruct (search_words q) as [|w ws] eqn:E; [congruence|].
  assert (Hw : In w (search_words q)) by (rewrite E; now left).
  destruct (search_words_infix q w Hw) as [pre [post Hq]].
  simpl. apply orb_true_iff. left. unfold like. rewrite Hr, Hq.
  change (chars (String "%" (w ++ "%"))) with ("%"%char :: chars (w ++ "%")).
  rewrite chars_app. apply like_infix_self.
Qed.

(** ** Round trip: where a row ends up in the result of a search (C1) *)

Lemma firstn_keeps {A : Type} (n : nat) (pre post : list A) (x : A) :
  (List.length pre < n)%nat ->
  exists post', firstn n (pre ++ x :: post) = pre ++ x :: post'.
Proof.
  intros H. rewrite firstn_app.
  rewrite firstn_all2 by lia.
  destruct (n - List.length pre)%nat as [|k] eqn:E; [lia|].
  simpl. now exists (firstn k post).
Qed.

Lemma sql_limit_keeps {A : Type} (n : Z) (pre post : list A) (x : A) :
  (Z.of_nat (List.length pre) < n)%Z ->
  exists post', sql_limit n (pre ++ x :: post) = pre ++ x :: post'.
Proof.
  intros H. unfold sql_limit.
  destruct (Z.ltb_spec n 0); [lia|]. apply firstn_keeps. lia.
Qed.

Lemma slice0_keeps {A : Type} (e : Z) (pre post : list A) (x : A) :
  (Z.of_nat (List.length pre) < e)%Z -> In x (slice0 e (pre ++ x :: post)).
Proof.
  intros H. unfold slice0.
  destruct (Z.ltb_spec e 0); [lia|].
  destruct (firstn_keeps
              (Z.to_nat (Z.min e (Z.of_nat (List.length (pre ++ x :: post)))))
              pre post x) as [post' E].
  - rewrite length_app. simpl. lia.
  - rewrite E. apply in_or_app. right. now left.
Qed.

Lemma filter_length_le {A : Type} (f : A -> bool) (l : list A) :
  (List.length (filter f l) <= List.length l)%nat.
Proof.
  induction l as [|x l IH]; simpl; [lia|]. destruct (f x); simpl; lia.
Qed.

Lemma filter_filter {A : Type} (f g : A -> bool) (l : list A) :
  filter f (filter g l) = filter (fun x => g x && f x) l.
Proof.
  induction l as [|x l IH]; simpl; [reflexivity|].
  destruct (g x); simpl; [destruct (f x)|]; now rewrite IH.
Qed.

Lemma NoDup_map_filter {A B : Type} (h : A -> B) (f : A -> bool) (l : list A) :
  NoDup (map h l) -> NoDup (map h (filter f l)).
Proof.
  induction l as [|x l IH]; simpl; intros Hnd; [constructor|].
  inversion Hnd as [|? ? Hnotin Hnd']; subst.
  destruct (f x); simpl; [|now apply IH].
  constructor; [|now apply IH].
  intros Hin. apply Hnotin. apply in_map_iff in Hin.
  destruct Hin as [y [E Hy]]. apply filter_In in Hy. rewrite <- E. apply in_map. tauto.
Qed.

(** In the sorted candidates, a row is preceded only by rows that the
    order may place before it. *)
Lemma sorted_position (cands : Table) (r : Row) :
  NoDup (map row_id cands) ->
  In r cands ->
  exists l1 l2,
    order_by SEARCH_ORDER cands = l1 ++ r :: l2 /\
    (List.length l1 <=
     List.length
       (filter (fun x => order_leb SEARCH_ORDER x r &&
                         negb (String.eqb (row_id x) (row_id r))) cands))%nat.
Proof.
  intros Hnd Hin.
  set (L := order_by SEARCH_ORDER cands).
  set (G := fun x => order_leb SEARCH_ORDER x r && negb (String.eqb (row_id x) (row_id r))).
  assert (Hp : Permutation cands L) by apply order_by_perm.
  assert (HinL : In r L) by (eapply Permutation_in; eassumption).
  destruct (in_split _ _ HinL) as [l1 [l2 E]].
  exists l1, l2. split; [exact E|].
  assert (HndL : NoDup (map row_id L)).
  { eapply Permutation_NoDup; [|exact Hnd]. now apply Permutation_map. }
  assert (Hs : StronglySorted (fun a b => ranks_no_higher b a) L)
    by apply order_by_search_sorted.
  rewrite E in HndL, Hs.
  assert (Hall : filter G l1 = l1).
  { apply filter_all. intros x Hx. unfold G. apply andb_true_iff. split.
    - apply search_order_leb_iff.
      apply (StronglySorted_app_inv _ l1 (r :: l2) Hs x r Hx). now left.
    - apply negb_true_iff. apply String.eqb_neq. intros Eid.
      rewrite map_app in HndL. simpl in HndL.
      apply (NoDup_app_disjoint _ _ HndL (row_id x)); [now apply in_map|].
      left. now symmetry. }
  rewrite (Permutation_length (Permutation_filter_compat G _ _ Hp)).
  fold L. rewrite E, filter_app, length_app, Hall. lia.
Qed.

Lemma where_query_only (q : string) lim fn md (r : Row) :
  where_clause (conditions (mkRecallParams q lim None None None fn md)) r =
  if truthy q then
    match search_words q with
    | [] => true
    | w :: ws => cond_text (w :: ws) r
    end
  else true.
Proof.
  unfold where_clause, conditions. simpl.
  destruct (truthy q); [|reflexivity].
  destruct (search_words q); simpl; [reflexivity|]. now rewrite andb_true_r.
Qed.

Lemma where_query_self (q : string) lim fn md (r : Row) :
  text_lower r = toLowerCase q ->
  where_clause (conditions (mkRecallParams q lim None None None fn md)) r = true.
Proof.
  intros Hr. rewrite where_query_only.
  destruct (truthy q); [|reflexivity].
  destruct (search_words q) as [|w ws] eqn:E; [reflexivity|].
  rewrite <- E. apply cond_text_self; [exact Hr | congruence].
Qed.

(** The table after a successful [store] holds rows of the old table and
    the new row, with distinct ids. *)
Lemma store_rows (st st' : State) (rows rows' : Table) params uuid now m :
  db st = Some rows ->
  NoDup (map row_id rows) ->
  store st params uuid now = Ok (st', m) ->
  db st' = Some rows' ->
  m = new_memory (config st) params uuid now /\
  config st' = config st /\
  ~ In uuid (map row_id rows) /\
  NoDup (map row_id rows') /\
  (forall x, In x rows' -> In x (rows ++ [row_of_memory m])).
Proof.
  intros Hdb Hnd Hst Hdb'.
  assert (Hfresh : ~ In uuid (map row_id rows)).
  { intros Hin. apply has_id_iff in Hin.
    unfold store in Hst. rewrite Hdb in Hst. cbv zeta in Hst.
    unfold insert_row in Hst. simpl row_id in Hst. rewrite Hin in Hst. discriminate. }
  destruct (store_ok st rows params uuid now Hdb Hfresh) as [st1 [Hst1 [Hcfg Hdb1]]].
  rewrite Hst in Hst1. inversion Hst1; subst st1 m. clear Hst1.
  split; [reflexivity|]. split; [exact Hcfg|]. split; [exact Hfresh|].
  rewrite Hdb' in Hdb1. inversion Hdb1 as [Hrows']. clear Hdb1.
  set (r := row_of_memory (new_memory (config st) params uuid now)) in *.
  assert (Hnd1 : NoDup (map row_id (rows ++ [r]))).
  { rewrite map_app. apply NoDup_snoc; assumption. }
  destruct (_ <? _)%Z.
  - unfold delete_ids. simpl. split.
    + now apply NoDup_map_filter.
    + intros x Hx. apply filter_In in Hx. tauto.
  - split; [exact Hnd1 | tauto].
Qed.

(** C1 (round trip), as the code has it.  After a successful [store], if the
    new row is still in the table (retention did not evict it), its text
    matches no noise pattern (or noise filtering is off), and fewer than
    [limit] other rows that pass the query's WHERE clause can be ordered
    before it, then the structured [recall] of its text returns a record with
    the same id, text, category, importance (as given or defaulted, not
    clamped) and metadata. *)
Theorem store_recall_roundtrip (eng : Engine) (st st' : State) (rows rows' : Table)
  (params : MemoryStoreParams) (uuid now : string) (m : Memory)
  (lim : option Z) (fn : option bool) :
  db st = Some rows ->
  NoDup (map row_id rows) ->
  store st params uuid now = Ok (st', m) ->
  db st' = Some rows' ->
  In uuid (map row_id rows') ->
  let q := mkRecallParams (sp_text params) lim None None None fn (Some mode_structured) in
  (noise_filter_on q = true -> is_noise (config st) m = false) ->
  (Z.of_nat (List.length (outranking q (row_of_memory m) rows')) < limit_or lim 5)%Z ->
  exists res m',
    recall eng st' q = Ok res /\
    In m' res /\
    id m' = uuid /\
    text m' = sp_text params /\
    category m' = match sp_category params with Some c => c | None => other end /\
    importance m' =
      match sp_importance params with
      | Some i => i
      | None => defaultImportance (config st)
      end /\
    metadata m' = sp_metadata params.
Proof.
  intros Hdb Hnd Hst Hdb' Hkept q Hnoise Hrank.
  destruct (store_rows st st' rows rows' params uuid now m Hdb Hnd Hst Hdb')
    as [Hm [Hcfg [Hfresh [Hnd' Hsub]]]].
  set (r := row_of_memory m) in *.
  assert (Hrid : row_id r = uuid) by (subst m; reflexivity).
  assert (Hr : In r rows').
  { apply in_map_iff in Hkept. destruct Hkept as [x [Ex Hx]].
    specialize (Hsub x Hx). apply in_app_or in Hsub.
    destruct Hsub as [Hold|[<-|[]]]; [|exact Hx].
    elim Hfresh. rewrite <- Ex. now apply in_map. }
  set (W := where_clause (conditions q)).
  assert (HW : W r = true).
  { unfold W, q. apply where_query_self. subst m. reflexivity. }
  assert (Hc : In r (filter W rows')) by (apply filter_In; now split).
  destruct (sorted_position (filter W rows') r (NoDup_map_filter _ _ _ Hnd') Hc)
    as [l1 [l2 [E Hlen]]].
  rewrite filter_filter in Hlen.
  assert (Hl1 : (Z.of_nat (List.length l1) < limit_or lim 5)%Z).
  { eapply Z.le_lt_trans; [|exact Hrank]. apply inj_le.
    eapply Nat.le_trans; [exact Hlen|]. unfold outranking.
    erewrite filter_ext; [apply Nat.le_refl|].
    intros x. fold W. now rewrite andb_assoc. }
  destruct (sql_limit_keeps (limit_or lim 5 * 2) l1 l2 r) as [post E2]; [lia|].
  set (m' := memory_of_row r).
  set (g := fun x : Memory => negb (is_noise (config st') x)).
  assert (Hg : noise_filter_on q = true -> g m' = true).
  { intros Hon. unfold g. rewrite Hcfg.
    replace (is_noise (config st) m') with (is_noise (config st) m);
      [now rewrite (Hnoise Hon)|].
    unfold is_noise, m', r. reflexivity. }
  assert (Hres : exists res, recall eng st' q = Ok res /\ In m' res).
  { unfold recall. rewrite Hdb'. cbv zeta.
    change (resolve_mode q) with structured. change (limit q) with lim.
    simpl orb. cbv iota.
    unfold structuredSearch. fold W. rewrite E, E2, map_app. simpl map. fold m'.
    destruct (noise_filter_on q) eqn:Hon.
    - eexists. split; [reflexivity|].
      fold g. rewrite filter_app. simpl filter. rewrite (Hg eq_refl).
      apply slice0_keeps.
      eapply Z.le_lt_trans; [|exact Hl1]. apply inj_le.
      eapply Nat.le_trans; [apply filter_length_le|]. now rewrite length_map.
    - eexists. split; [reflexivity|].
      apply slice0_keeps. now rewrite length_map. }
  destruct Hres as [res [Hrec Hin]].
  exists res, m'. split; [exact Hrec|]. split; [exact Hin|].
  unfold m', r. subst m. now repeat split.
Qed.

(** C1, against the claim.  Four valid stores whose record the structured
    recall of its own text does not return as the claim says: a text that is
    a noise pattern; a record outranked by more than [limit] matching
    records; a record evicted by retention within [store]; and an importance
    above 1, which comes back as it was given, not clamped. *)
Lemma store_recall_counterexample :
  (exists st' m,
     store Demo.fresh (Demo.say "ok" None) "u1" Demo.t1 = Ok (st', m) /\
     trim "ok" <> "" /\
     recall Demo.eng st' (Demo.ask "ok" (Some mode_structured)) = Ok []) /\
  (exists st' m,
     store (Demo.after Demo.fresh Demo.five_alphas)
       (Demo.say "alpha" (Some (1 # 10)%Q)) "u6" Demo.t6 = Ok (st', m) /\
     map id (Demo.answers (recall Demo.eng st' (Demo.ask "alpha" (Some mode_structured))))
     = ["u5"; "u4"; "u3"; "u2"; "u1"]) /\
  (exists st' m,
     store
       (Demo.after (Demo.fresh_max 1)
          [EvStore (Demo.say "alpha" (Some (9 # 10)%Q)) "u1" Demo.t1])
       (Demo.say "beta" (Some (1 # 10)%Q)) "u2" Demo.t2 = Ok (st', m) /\
     recall Demo.eng st' (Demo.ask "beta" (Some mode_structured)) = Ok []) /\
  (exists st' m,
     store Demo.fresh (Demo.say "gamma" (Some (3 # 2)%Q)) "u1" Demo.t1 = Ok (st', m) /\
     map importance
       (Demo.answers (recall Demo.eng st' (Demo.ask "gamma" (Some mode_structured))))
     = [(3 # 2)%Q] /\
     ~ ((3 # 2) <= 1)%Q).
Proof.
  repeat split.
  - eexists. eexists. split; [vm_compute; reflexivity|].
    split; [discriminate | vm_compute; reflexivity].
  - eexists. eexists. split; vm_compute; reflexivity.
  - eexists. eexists. split; vm_compute; reflexivity.
  - eexists. eexists. split; [vm_compute; reflexivity|].
    split; [vm_compute; reflexivity|]. intros H. vm_compute in H. now apply H.
Qed.

Lemma store_recall_roundtrip_witness :
  exists res m',
    recall Demo.eng (Demo.after Demo.fresh Demo.dark_mode_run)
      (mkRecallParams "User prefers dark mode" None None None None None
         (Some mode_structured)) = Ok res /\
    In m' res /\
    id m' = "u1" /\
    text m' = "User prefers dark mode" /\
    category m' = preference /\
    importance m' = (9 # 10)%Q /\
    metadata m' = Some (JObj [("source", JStr "chat")]).
Proof.
  apply (store_recall_roundtrip Demo.eng Demo.fresh
           (Demo.after Demo.fresh Demo.dark_mode_run)
           []
           (Demo.rows_of (Demo.after Demo.fresh Demo.dark_mode_run))
           Demo.dark_mode "u1" Demo.t1
           (new_memory Demo.cfg Demo.dark_mode "u1" Demo.t1)
           None None).
  - reflexivity.
  - constructor.
  - vm_compute. reflexivity.
  - vm_compute. reflexivity.
  - vm_compute. now left.
  - intros _. vm_compute. reflexivity.
  - vm_compute. reflexivity.
Defined.

(* ------------------------------------------------------------------------- *)
(** ** Routing, limits, deletion and fallback *)

(** *** Router (C5) *)

(** C5 (router determinism).  The first query is classified [structured],
    the second [semantic]; and with an explicit mode the query type is that
    mode whatever the query is, so the classifier has no say in what [recall]
    runs. *)
Theorem router_determinism :
  detectQueryType "Meeting with investors on Thursday at 14:04" = structured /\
  detectQueryType "Similar ideas to dark mode preferences" = semantic /\
  (forall q lim c df dt fn,
     resolve_mode (mkRecallParams q lim c df dt fn (Some mode_structured)) = structured /\
     resolve_mode (mkRecallParams q lim c df dt fn (Some mode_semantic)) = semantic) /\
  (forall eng st q lim c df dt fn,
     recall eng st (mkRecallParams q lim c df dt fn (Some mode_structured)) =
     match db st with
     | None => Throw NotInitialized
     | Some rows =>
         let params := mkRecallParams q lim c df dt fn (Some mode_structured) in
         let results := structuredSearch rows params (limit_or lim 5) in
         Ok (slice0 (limit_or lim 5)
               (if noise_filter_on params
                then filter (fun m => negb (is_noise (config st) m)) results
                else results))
     end) /\
  (forall eng st q lim c df dt fn,
     recall eng st (mkRecallParams q lim c df dt fn (Some mode_semantic)) =
     match db st with
     | None => Throw NotInitialized
     | Some rows =>
         let params := mkRecallParams q lim c df dt fn (Some mode_semantic) in
         let results :=
           if enableEmbeddings (config st)
           then semanticSearch eng st rows params (limit_or lim 5)
           else structuredSearch rows params (limit_or lim 5) in
         Ok (slice0 (limit_or lim 5)
               (if noise_filter_on params
                then filter (fun m => negb (is_noise (config st) m)) results
                else results))
     end).
Proof.
  split; [vm_compute; reflexivity|].
  split; [vm_compute; reflexivity|].
  split; [intros; split; reflexivity|].
  split; [intros; reflexivity|].
  intros eng st q lim c df dt fn.
  unfold recall. destruct (db st); [|reflexivity]. cbv zeta.
  change (resolve_mode (mkRecallParams q lim c df dt fn (Some mode_semantic)))
    with semantic.
  simpl. now destruct (enableEmbeddings (config st)).
Qed.

(** *** Degraded mode (C8) *)

(** C8 (degraded-mode equivalence).  With [enableEmbeddings] false, [recall]
    in mode auto returns what [recall] in mode structured returns, for every
    query and the same other parameters, on the same state. *)
Theorem degraded_mode_equivalence (eng : Engine) (st : State) q lim c df dt fn :
  enableEmbeddings (config st) = false ->
  recall eng st (mkRecallParams q lim c df dt fn (Some mode_auto)) =
  recall eng st (mkRecallParams q lim c df dt fn (Some mode_structured)).
Proof.
  intros Hoff. unfold recall. destruct (db st) as [rows|]; [|reflexivity].
  cbv zeta. rewrite Hoff.
  destruct (resolve_mode (mkRecallParams q lim c df dt fn (Some mode_auto)));
    reflexivity.
Qed.

Lemma degraded_mode_equivalence_witness :
  recall Demo.eng (Demo.after Demo.fresh_sqlite_only Demo.one_store)
    (mkRecallParams "Similar ideas to dark mode preferences"
       None None None None None (Some mode_auto)) =
  recall Demo.eng (Demo.after Demo.fresh_sqlite_only Demo.one_store)
    (mkRecallParams "Similar ideas to dark mode preferences"
       None None None None None (Some mode_structured)).
Proof.
  apply (degraded_mode_equivalence Demo.eng
           (Demo.after Demo.fresh_sqlite_only Demo.one_store)).
  reflexivity.
Defined.

(** *** forget (C7, C10) *)

(** C10.  With neither [memoryId] nor [query], [forget] on an initialised
    plugin returns [{deleted: 0}] and leaves the state, and so both stores,
    as they were. *)
Theorem forget_nothing (eng : Engine) (st : State) (rows : Table) :
  db st = Some rows ->
  forget eng st (mkForgetParams None None) = Ok (st, 0%Z).
Proof.
  intros Hdb. unfold forget. rewrite Hdb. reflexivity.
Qed.

Lemma forget_nothing_witness :
  forget Demo.eng (Demo.after Demo.fresh Demo.one_store) (mkForgetParams None None) =
  Ok (Demo.after Demo.fresh Demo.one_store, 0%Z).
Proof.
  apply (forget_nothing Demo.eng
           (Demo.after Demo.fresh Demo.one_store)
           (Demo.rows_of (Demo.after Demo.fresh Demo.one_store))).
  reflexivity.
Defined.

Lemma id_in_single (i j : string) : id_in [i] j = String.eqb j i.
Proof. unfold id_in. simpl. apply orb_false_r. Qed.

Lemma delete_absent (i : string) (rows : Table) :
  ~ In i (map row_id rows) ->
  filter (fun r => negb (id_in [i] (row_id r))) rows = rows.
Proof.
  intros Hnot. apply filter_all. intros x Hx. rewrite id_in_single.
  apply negb_true_iff. apply String.eqb_neq. intros E. apply Hnot.
  rewrite <- E. now apply in_map.
Qed.

Lemma delete_one_length (i : string) (rows : Table) :
  NoDup (map row_id rows) ->
  In i (map row_id rows) ->
  S (List.length (filter (fun r => negb (id_in [i] (row_id r))) rows)) = List.length rows.
Proof.
  induction rows as [|r rows IH]; intros Hnd Hin; [contradiction|].
  simpl in Hnd, Hin. inversion Hnd as [|? ? Hnotin Hnd']; subst.
  cbn [filter List.length]. rewrite id_in_single.
  destruct (String.eqb_spec (row_id r) i) as [E|Hne]; cbn [negb].
  - subst i. now rewrite delete_absent.
  - cbn [List.length]. f_equal. apply IH; [exact Hnd'|].
    destruct Hin as [E|Hin]; [congruence | exact Hin].
Qed.

Lemma truthy_nonempty (s : string) : s <> "" -> truthy s = true.
Proof. destruct s; [congruence | reflexivity]. Qed.

Lemma forget_by_id (eng : Engine) (st : State) (rows : Table) (X : string)
  (q : option string) :
  db st = Some rows ->
  X <> "" ->
  exists st1,
    forget eng st (mkForgetParams (Some X) q) = Ok (st1, snd (delete_ids [X] rows)) /\
    db st1 = Some (fst (delete_ids [X] rows)).
Proof.
  intros Hdb Hne. unfold forget. rewrite Hdb.
  cbn [memoryId truthy_opt]. rewrite (truthy_nonempty X Hne). cbn [bind].
  unfold delete_ids. cbv beta iota zeta. cbn [fst snd].
  destruct (lanceTable st); eexists; split; reflexivity.
Qed.

(** C7 (idempotent delete).  For the id [X] of a row of the table, the first
    [forget({memoryId: X})] returns [{deleted: 1}] and a second one on the
    resulting state returns [{deleted: 0}]; neither throws, whatever the
    vector engine does.  Ids are the values of [randomUUID()], so they are
    never the empty string, and they are the table's primary key. *)
Theorem forget_twice (eng1 eng2 : Engine) (st : State) (rows : Table)
  (X : string) (q : option string) :
  db st = Some rows ->
  NoDup (map row_id rows) ->
  In X (map row_id rows) ->
  X <> "" ->
  exists st1 st2,
    forget eng1 st (mkForgetParams (Some X) q) = Ok (st1, 1%Z) /\
    forget eng2 st1 (mkForgetParams (Some X) q) = Ok (st2, 0%Z).
Proof.
  intros Hdb Hnd Hin Hne.
  set (rows1 := filter (fun r => negb (id_in [X] (row_id r))) rows).
  assert (Hlen : S (List.length rows1) = List.length rows)
    by now apply delete_one_length.
  assert (Hgone : ~ In X (map row_id rows1)).
  { intros H. apply in_map_iff in H. destruct H as [r [E Hr]].
    apply filter_In in Hr. destruct Hr as [_ Hr]. simpl in Hr.
    rewrite E, String.eqb_refl in Hr. discriminate. }
  destruct (forget_by_id eng1 st rows X q Hdb Hne) as [st1 [H1 Hdb1]].
  change (fst (delete_ids [X] rows)) with rows1 in Hdb1.
  destruct (forget_by_id eng2 st1 rows1 X q Hdb1 Hne) as [st2 [H2 _]].
  exists st1, st2. split.
  - rewrite H1. do 2 f_equal. unfold delete_ids. cbn [snd]. fold rows1. lia.
  - rewrite H2. do 2 f_equal. unfold delete_ids. cbn [snd].
    rewrite (delete_absent X rows1 Hgone). lia.
Qed.

Lemma forget_twice_witness :
  exists st1 st2,
    forget Demo.eng (Demo.after Demo.fresh Demo.two_stores)
      (mkForgetParams (Some "u1") None) = Ok (st1, 1%Z) /\
    forget Demo.eng st1 (mkForgetParams (Some "u1") None) = Ok (st2, 0%Z).
Proof.
  apply (forget_twice Demo.eng Demo.eng
           (Demo.after Demo.fresh Demo.two_stores)
           (Demo.rows_of (Demo.after Demo.fresh Demo.two_stores))
           "u1" None).
  - reflexivity.
  - vm_compute. repeat constructor; simpl; intuition discriminate.
  - vm_compute. now left.
  - discriminate.
Defined.

(** *** The limit of recall (C6) *)

Lemma slice0_length {A : Type} (e : Z) (l : list A) :
  (0 <= e)%Z -> (Z.of_nat (List.length (slice0 e l)) <= e)%Z.
Proof.
  intros He. unfold slice0. destruct (Z.ltb_spec e 0); [lia|].
  rewrite length_firstn. lia.
Qed.

(** C6, against the claim: a limit of 0 is read as 5 and a negative limit
    is passed on as it is; neither is clamped to 1.  With three matching
    rows, [limit: 0] returns three records and [limit: -1] returns two, both
    more than [max(limit, 1) = 1]. *)
Lemma recall_limit_counterexample :
  (exists res,
     recall Demo.eng (Demo.after Demo.fresh Demo.three_alphas)
       (Demo.ask_limit "alpha" 0) = Ok res /\
     (Z.max 0 1 < Z.of_nat (List.length res))%Z) /\
  (exists res,
     recall Demo.eng (Demo.after Demo.fresh Demo.three_alphas)
       (Demo.ask_limit "alpha" (-1)) = Ok res /\
     (Z.max (-1) 1 < Z.of_nat (List.length res))%Z).
Proof.
  split; eexists; (split; [vm_compute; reflexivity | vm_compute; reflexivity]).
Qed.

(** C6, as the code has it.  An absent limit, and likewise a limit of 0,
    stands for 5: [recall] then answers as with [limit: 5] and returns at
    most 5 records; for a limit [n >= 1], [recall] returns at most [n]
    records. *)
Theorem recall_limit_bound (eng : Engine) (st : State) q c df dt fn md :
  recall eng st (mkRecallParams q None c df dt fn md) =
  recall eng st (mkRecallParams q (Some 5%Z) c df dt fn md) /\
  recall eng st (mkRecallParams q (Some 0%Z) c df dt fn md) =
  recall eng st (mkRecallParams q (Some 5%Z) c df dt fn md) /\
  (forall lim res,
     recall eng st (mkRecallParams q lim c df dt fn md) = Ok res ->
     (lim = None \/ lim = Some 0%Z -> (Z.of_nat (List.length res) <= 5)%Z) /\
     (forall n, lim = Some n -> (0 < n)%Z -> (Z.of_nat (List.length res) <= n)%Z)).
Proof.
  split; [reflexivity|]. split; [reflexivity|].
  intros lim res Hrec. unfold recall in Hrec.
  destruct (db st) as [rows|]; [|discriminate].
  cbv zeta in Hrec. change (limit (mkRecallParams q lim c df dt fn md)) with lim in Hrec.
  inversion Hrec as [Hres]. clear Hrec. split.
  - intros [-> | ->]; apply slice0_length; simpl; lia.
  - intros n -> Hn. unfold limit_or.
    destruct (Z.eqb_spec n 0); [lia|]. apply slice0_length. lia.
Qed.

Lemma recall_limit_bound_witness :
  (Z.of_nat
     (List.length
        (Demo.answers
           (recall Demo.eng (Demo.after Demo.fresh Demo.three_alphas)
              (mkRecallParams "alpha" (Some 2%Z) None None None None None))))
   <= 2)%Z.
Proof.
  destruct (recall_limit_bound Demo.eng
              (Demo.after Demo.fresh Demo.three_alphas)
              "alpha" None None None None None) as [_ [_ H]].
  refine (proj2 (H (Some 2%Z) _ _) 2%Z eq_refl _).
  - vm_compute. reflexivity.
  - lia.
Defined.

(** *** store and blank text (C2) *)

Lemma prune_lanceTable (st : State) :
  lanceTable (pruneOldMemories st) = lanceTable st.
Proof.
  unfold pruneOldMemories. destruct (db st) as [rows|]; [|reflexivity].
  cbn [stats total]. destruct (_ <? _)%Z; [|reflexivity].
  destruct (map row_id _); [reflexivity|].
  destruct (lanceTable st) eqn:E; simpl; now rewrite ?E.
Qed.

Lemma store_lanceTable (st st' : State) params uuid now m :
  store st params uuid now = Ok (st', m) -> lanceTable st' = lanceTable st.
Proof.
  unfold store. destruct (db st) as [rows|]; [|discriminate]. cbv zeta.
  destruct (insert_row _ rows) as [rows1|e]; [|discriminate]. cbn [bind].
  intros H. inversion H; subst. rewrite prune_lanceTable.
  now destruct (enableEmbeddings (config st) && lanceDb st).
Qed.

(** C2, against the claim: [store] of a text of three spaces on a fresh
    plugin raises nothing; it returns the record, and the table then holds
    one row with that text. *)
Lemma store_blank_counterexample :
  trim "   " = "" /\
  exists st' m,
    store Demo.fresh (Demo.say "   " None) "u1" Demo.t1 = Ok (st', m) /\
    text m = "   " /\
    map row_text (Demo.rows_of st') = ["   "] /\
    db st' <> db Demo.fresh.
Proof.
  split; [reflexivity|]. eexists. eexists.
  split; [vm_compute; reflexivity|].
  split; [reflexivity|]. split; [reflexivity|]. discriminate.
Qed.

(** C2, as the code has it.  [store] does not validate the text: for a text
    that is empty after trimming, on an initialised plugin and with a fresh
    id, it returns the record with that text; the row is inserted into the
    table (and stays there when the table was below [maxMemories]); the
    vector table is not touched before [store] returns. *)
Theorem store_accepts_blank_text (st : State) (rows : Table)
  (params : MemoryStoreParams) (uuid now : string) :
  db st = Some rows ->
  ~ In uuid (map row_id rows) ->
  trim (sp_text params) = "" ->
  exists st' m,
    store st params uuid now = Ok (st', m) /\
    text m = sp_text params /\
    lanceTable st' = lanceTable st /\
    ((Z.of_nat (List.length rows) < maxMemories (config st))%Z ->
     db st' = Some (rows ++ [row_of_memory m])).
Proof.
  intros Hdb Hfresh _.
  destruct (store_ok st rows params uuid now Hdb Hfresh) as [st' [Hst [Hcfg Hdb']]].
  exists st', (new_memory (config st) params uuid now).
  split; [exact Hst|]. split; [reflexivity|].
  split; [exact (store_lanceTable _ _ _ _ _ _ Hst)|].
  intros Hroom. rewrite Hdb'.
  destruct (Z.ltb_spec (maxMemories (config st))
              (Z.of_nat (List.length (rows ++ [row_of_memory (new_memory (config st) params uuid now)]))))
    as [Hfull|_]; [|reflexivity].
  rewrite length_app in Hfull. simpl in Hfull. lia.
Qed.

Lemma store_accepts_blank_text_witness :
  exists st' m,
    store Demo.fresh (Demo.say "   " None) "u1" Demo.t1 = Ok (st', m) /\
    text m = sp_text (Demo.say "   " None) /\
    lanceTable st' = lanceTable Demo.fresh /\
    ((Z.of_nat (List.length (@nil Row)) < maxMemories (config Demo.fresh))%Z ->
     db st' = Some ([] ++ [row_of_memory m])).
Proof.
  apply (store_accepts_blank_text Demo.fresh [] (Demo.say "   " None) "u1" Demo.t1).
  - reflexivity.
  - intros [].
  - reflexivity.
Defined.

(** *** The semantic path and its fallback (C9) *)

(** The cases in which [semanticSearch] hands the query to
    [structuredSearch]: no vector table, a failing embedding, a failing
    vector search, and a vector search without hits. *)
Lemma semantic_fallbacks (eng : Engine) (st : State) (rows : Table)
  (params : MemoryRecallParams) (limit : Z) :
  lanceTable st = None \/
  embed eng (query params) (embeddingModel (config st)) = None \/
  (exists tbl v,
     lanceTable st = Some tbl /\
     embed eng (query params) (embeddingModel (config st)) = Some v /\
     (search eng tbl v (limit * 2) = None \/ search eng tbl v (limit * 2) = Some [])) ->
  semanticSearch eng st rows params limit = structuredSearch rows params limit.
Proof.
  unfold semanticSearch.
  intros [H|[H|[tbl [v [Ht [He [H|H]]]]]]].
  - now rewrite H.
  - rewrite H. now destruct (lanceTable st).
  - now rewrite Ht, He, H.
  - now rewrite Ht, He, H.
Qed.

(** When no hit of a non-empty vector search has a row, hydration drops
    them all and [semanticSearch] returns no record; [structuredSearch] is
    not consulted. *)
Lemma hydrate_orphans (rows : Table) (hits : list Hit) :
  (forall h, In h hits -> ~ In (h_id h) (map row_id rows)) ->
  hydrate rows hits = [].
Proof.
  intros Horph. unfold hydrate.
  set (memoryMap := lookup_memory _).
  assert (Hnone : forall h, In h hits -> memoryMap (h_id h) = None).
  { intros h Hh. unfold memoryMap, lookup_memory.
    destruct (find _ _) as [r|] eqn:E; [|reflexivity].
    apply find_some in E. destruct E as [Hr E]. apply String.eqb_eq in E.
    apply filter_In in Hr. destruct Hr as [Hr _].
    elim (Horph h Hh). rewrite <- E. now apply in_map. }
  clearbody memoryMap. clear Horph.
  induction hits as [|h hits IH]; [reflexivity|].
  cbn [flat_map]. rewrite (Hnone h (or_introl eq_refl)). cbn [app].
  apply IH. intros h' Hh'. apply Hnone. now right.
Qed.

Lemma semantic_orphans_only (eng : Engine) (st : State) (rows : Table)
  (params : MemoryRecallParams) (limit : Z) tbl v h hits :
  lanceTable st = Some tbl ->
  embed eng (query params) (embeddingModel (config st)) = Some v ->
  search eng tbl v (limit * 2) = Some (h :: hits) ->
  (forall h', In h' (h :: hits) -> ~ In (h_id h') (map row_id rows)) ->
  semanticSearch eng st rows params limit = [].
Proof.
  intros Ht He Hs Horph. unfold semanticSearch. rewrite Ht, He, Hs.
  cbn [map]. now apply hydrate_orphans.
Qed.

(** C9, the code at the failing input.  In [Demo.orphan_state] the vector
    table holds the vector of a record whose row is gone, and the table holds
    a row that matches the query.  The vector search returns that one hit,
    hydration drops it, and [recall] in mode semantic returns no record: it
    does not fall back to the structured search, which finds the row. *)
Theorem semantic_recall_orphan_hits :
  map v_id (match lanceTable Demo.orphan_state with Some t => t | None => [] end) = ["u1"] /\
  map row_id (Demo.rows_of Demo.orphan_state) = ["u2"] /\
  recall Demo.eng Demo.orphan_state (Demo.ask "dark mode" (Some mode_semantic)) = Ok [] /\
  map id
    (Demo.answers
       (recall Demo.eng Demo.orphan_state (Demo.ask "dark mode" (Some mode_structured))))
  = ["u2"].
Proof.
  split; [vm_compute; reflexivity|]. split; [vm_compute; reflexivity|].
  split; vm_compute; reflexivity.
Qed.

(** *** The text condition of structuredSearch (C4) *)

Lemma like_word_prefix (w s : list ascii) :
  forallb (fun c => negb (Ascii.eqb c "%" || Ascii.eqb c "_")) w = true ->
  like_chars (w ++ ["%"%char]) s = prefix_nocase w s.
Proof.
  revert s. induction w as [|c w IH]; intros s Hw.
  - simpl app. rewrite like_percent_all. now destruct s.
  - simpl in Hw. apply andb_true_iff in Hw. destruct Hw as [Hc Hw].
    apply negb_true_iff, orb_false_iff in Hc. destruct Hc as [Hp Hu].
    simpl. rewrite Hp, Hu. destruct s as [|d s]; [reflexivity|]. now rewrite IH.
Qed.

Lemma like_word_infix (w s : list ascii) :
  forallb (fun c => negb (Ascii.eqb c "%" || Ascii.eqb c "_")) w = true ->
  like_chars ("%"%char :: w ++ ["%"%char]) s = infix_nocase w s.
Proof.
  intros Hw. induction s as [|d s IH].
  - rewrite like_percent, (like_word_prefix w [] Hw). simpl. now rewrite !orb_false_r.
  - rewrite like_percent. cbv beta iota. rewrite (like_word_prefix w _ Hw), IH.
    reflexivity.
Qed.

Lemma like_contains (s w : string) :
  wildcard_free w = true -> like s ("%" ++ w ++ "%") = contains_nocase s w.
Proof.
  intros Hw. unfold like, contains_nocase.
  change (chars ("%" ++ w ++ "%")) with ("%"%char :: chars (w ++ "%")).
  rewrite chars_app. now apply like_word_infix.
Qed.

Lemma sql_limit_incl {A : Type} (n : Z) (l : list A) (x : A) :
  In x (sql_limit n l) -> In x l.
Proof.
  unfold sql_limit. destruct (n <? 0)%Z; [tauto|].
  intros H. rewrite <- (firstn_skipn (Z.to_nat n) l). apply in_or_app. now left.
Qed.

Lemma sql_limit_all {A : Type} (n : Z) (l : list A) :
  (Z.of_nat (List.length l) <= n)%Z -> sql_limit n l = l.
Proof.
  intros H. unfold sql_limit. destruct (n <? 0)%Z; [reflexivity|].
  apply firstn_all2. lia.
Qed.

(** C4, against the claim: the words of a query are joined by OR.  The
    query "alpha beta" keeps both words, the stored text "alpha" does not
    contain "beta", and the row is selected all the same. *)
Lemma text_filter_counterexample :
  search_words "alpha beta" = ["alpha"; "beta"] /\
  map text_lower
    (Demo.rows_of (Demo.after Demo.fresh [EvStore (Demo.say "alpha" None) "u1" Demo.t1]))
  = ["alpha"] /\
  contains_nocase "alpha" "beta" = false /\
  map id
    (structuredSearch
       (Demo.rows_of (Demo.after Demo.fresh [EvStore (Demo.say "alpha" None) "u1" Demo.t1]))
       (Demo.ask "alpha beta" (Some mode_structured)) 5)
  = ["u1"].
Proof.
  split; [vm_compute; reflexivity|]. split; [vm_compute; reflexivity|].
  split; vm_compute; reflexivity.
Qed.

(** C4, as the code has it.  For a query with no category and no dates,
    [structuredSearch] returns only rows that pass the text condition, and
    returns every such row when twice the limit is at least the size of the
    table.  The text condition holds of a row when no word of the query
    survives (lower-casing, splitting on white space, dropping words of
    fewer than two characters, dropping the stop words), or when
    [text_lower LIKE '%word%'] holds for at least one surviving word; for a
    word without [%] and [_] that is the occurrence of the word in
    [text_lower], letters compared without regard to case. *)
Theorem structured_text_filter (rows : Table) (q : string) lim fn md (limit : Z) :
  let params := mkRecallParams q lim None None None fn md in
  let selects (r : Row) :=
    search_words q = [] \/
    exists w, In w (search_words q) /\ like (text_lower r) ("%" ++ w ++ "%") = true in
  (forall m, In m (structuredSearch rows params limit) ->
     exists r, In r rows /\ m = memory_of_row r /\ selects r) /\
  (forall r, In r rows -> selects r ->
     (Z.of_nat (List.length rows) <= limit * 2)%Z ->
     In (memory_of_row r) (structuredSearch rows params limit)) /\
  (forall s w, wildcard_free w = true ->
     like s ("%" ++ w ++ "%") = contains_nocase s w).
Proof.
  intros params selects.
  assert (HW : forall r, where_clause (conditions params) r = true <-> selects r).
  { intros r. unfold params. rewrite where_query_only. unfold selects.
    destruct (truthy q) eqn:Hq.
    - destruct (search_words q) as [|w ws] eqn:E.
      + split; [now left | reflexivity].
      + unfold cond_text. rewrite existsb_exists. split.
        * intros [x [Hx Hl]]. right. now exists x.
        * intros [H|[x [Hx Hl]]]; [discriminate | now exists x].
    - destruct q; [|discriminate]. split; [intros _; now left | reflexivity]. }
  split; [|split].
  - intros m Hm. unfold structuredSearch in Hm. apply in_map_iff in Hm.
    destruct Hm as [r [Em Hr]]. apply sql_limit_incl in Hr.
    apply (Permutation_in _ (Permutation_sym (order_by_perm SEARCH_ORDER _))) in Hr.
    apply filter_In in Hr. destruct Hr as [Hr Hw].
    exists r. split; [exact Hr|]. split; [now symmetry | now apply HW].
  - intros r Hr Hsel Hlim. unfold structuredSearch. apply in_map.
    rewrite sql_limit_all.
    + apply (Permutation_in _ (order_by_perm SEARCH_ORDER _)).
      apply filter_In. split; [exact Hr | now apply HW].
    + rewrite <- (Permutation_length (order_by_perm SEARCH_ORDER _)).
      pose proof (filter_length_le (where_clause (conditions params)) rows). lia.
  - intros s w. apply like_contains.
Qed.

Lemma structured_text_filter_witness :
  In (memory_of_row
        (row_of_memory (new_memory Demo.cfg (Demo.say "alpha" None) "u1" Demo.t1)))
     (structuredSearch
        [row_of_memory (new_memory Demo.cfg (Demo.say "alpha" None) "u1" Demo.t1)]
        (mkRecallParams "alpha beta" None None None None None None) 5) /\
  like "alphabet" ("%" ++ "alpha" ++ "%") = contains_nocase "alphabet" "alpha".
Proof.
  destruct (structured_text_filter
              [row_of_memory (new_memory Demo.cfg (Demo.say "alpha" None) "u1" Demo.t1)]
              "alpha beta" None None None 5) as [_ [H2 H3]].
  split.
  - apply H2.
    + now left.
    + right. exists "alpha". split; [vm_compute; now left | vm_compute; reflexivity].
    + simpl. lia.
  - apply H3. reflexivity.
Defined.

(* ------------------------------------------------------------------------- *)
(** * Further properties of the plugin *)

(** ** What recall returns *)

Lemma slice0_incl {A : Type} (e : Z) (l : list A) (x : A) :
  In x (slice0 e l) -> In x l.
Proof.
  unfold slice0. intros H.
  rewrite <- (firstn_skipn
                (Z.to_nat (if (e <? 0)%Z
                           then Z.max (Z.of_nat (List.length l) + e) 0
                           else Z.min e (Z.of_nat (List.length l)))) l).
  apply in_or_app. now left.
Qed.

Lemma structuredSearch_In (rows : Table) (params : MemoryRecallParams) (limit : Z)
  (m : Memory) :
  In m (structuredSearch rows params limit) ->
  exists r, In r rows /\ where_clause (conditions params) r = true /\ m = memory_of_row r.
Proof.
  unfold structuredSearch. intros Hm. apply in_map_iff in Hm.
  destruct Hm as [r [Em Hr]]. apply sql_limit_incl in Hr.
  apply (Permutation_in _ (Permutation_sym (order_by_perm SEARCH_ORDER _))) in Hr.
  apply filter_In in Hr. destruct Hr as [Hr Hw].
  exists r. split; [exact Hr|]. split; [exact Hw | now symmetry].
Qed.

Lemma hydrate_In (rows : Table) (hits : list Hit) (m : Memory) :
  In m (hydrate rows hits) ->
  exists r h,
    In r rows /\ In h hits /\ row_id r = h_id h /\
    m = with_score (memory_of_row r) (1 - distance_or_0 h)%Q.
Proof.
  unfold hydrate. intros Hm. apply in_flat_map in Hm.
  destruct Hm as [h [Hh Hm]].
  unfold lookup_memory in Hm.
  destruct (find _ _) as [r|] eqn:E; [|contradiction].
  destruct Hm as [<-|[]].
  apply find_some in E. destruct E as [Hr E]. apply String.eqb_eq in E.
  apply filter_In in Hr. destruct Hr as [Hr _].
  exists r, h. now repeat split.
Qed.

Lemma semanticSearch_cases (eng : Engine) (st : State) (rows : Table)
  (params : MemoryRecallParams) (limit : Z) :
  semanticSearch eng st rows params limit = structuredSearch rows params limit \/
  exists hits, semanticSearch eng st rows params limit = hydrate rows hits.
Proof.
  unfold semanticSearch.
  destruct (lanceTable st) as [tbl|]; [|now left].
  destruct (embed eng _ _) as [v|]; [|now left].
  destruct (search eng tbl v _) as [hits|]; [|now left].
  destruct (map h_id hits); [now left | right; now exists hits].
Qed.

(** The shape of every successful [recall]. *)
Lemma recall_cases (eng : Engine) (st : State) (params : MemoryRecallParams)
  (res : list Memory) :
  recall eng st params = Ok res ->
  exists rows results,
    db st = Some rows /\
    (results = structuredSearch rows params (limit_or (limit params) 5) \/
     exists hits, results = hydrate rows hits) /\
    res = slice0 (limit_or (limit params) 5)
            (if noise_filter_on params
             then filter (fun m => negb (is_noise (config st) m)) results
             else results).
Proof.
  unfold recall. destruct (db st) as [rows|]; [|discriminate].
  cbv zeta. intros H. inversion H as [Hres]. clear H.
  exists rows.
  destruct (is_structured (resolve_mode params) || negb (enableEmbeddings (config st))).
  - eexists. split; [reflexivity|]. split; [now left | reflexivity].
  - destruct (semanticSearch_cases eng st rows params (limit_or (limit params) 5))
      as [E|[hits E]]; rewrite E; eexists; (split; [reflexivity|]);
      (split; [|reflexivity]); [now left | right; now exists hits].
Qed.

Lemma recall_structured_path (eng : Engine) (st : State)
  (params : MemoryRecallParams) (rows : Table) :
  structured_path st params ->
  db st = Some rows ->
  recall eng st params =
  Ok (slice0 (limit_or (limit params) 5)
        (if noise_filter_on params
         then filter (fun m => negb (is_noise (config st) m))
                (structuredSearch rows params (limit_or (limit params) 5))
         else structuredSearch rows params (limit_or (limit params) 5))).
Proof.
  intros Hpath Hdb. unfold recall. rewrite Hdb. cbv zeta.
  replace (is_structured (resolve_mode params) || negb (enableEmbeddings (config st)))
    with true; [reflexivity|].
  symmetry. destruct Hpath as [-> | ->]; [reflexivity | apply orb_true_r].
Qed.

(** X1.  Every record [recall] returns is a row of the table: its id, text,
    category, importance, createdAt and metadata are those of one row,
    on the structured path and on the semantic path alike. *)
Theorem recall_returns_rows (eng : Engine) (st : State)
  (params : MemoryRecallParams) (rows : Table) (res : list Memory) (m : Memory) :
  db st = Some rows ->
  recall eng st params = Ok res ->
  In m res ->
  exists r,
    In r rows /\
    id m = row_id r /\ text m = row_text r /\ category m = row_category r /\
    importance m = row_importance r /\ createdAt m = created_at r /\
    metadata m = row_metadata r.
Proof.
  intros Hdb Hrec Hm.
  destruct (recall_cases eng st params res Hrec) as [rows' [results [Hdb' [Hsrc ->]]]].
  rewrite Hdb in Hdb'. inversion Hdb'; subst rows'.
  apply slice0_incl in Hm.
  assert (Hin : In m results).
  { destruct (noise_filter_on params); [|exact Hm].
    apply filter_In in Hm. tauto. }
  destruct Hsrc as [-> | [hits ->]].
  - apply structuredSearch_In in Hin. destruct Hin as [r [Hr [_ ->]]].
    exists r. now repeat split.
  - apply hydrate_In in Hin. destruct Hin as [r [h [Hr [_ [_ ->]]]]].
    exists r. now repeat split.
Qed.

Lemma recall_returns_rows_witness :
  exists r,
    In r (Demo.rows_of (Demo.after Demo.fresh Demo.test_run)) /\
    id (new_memory Demo.cfg
          (mkStoreParams "Meeting with investors on Thursday at 14:04"
             (Some conversation) (Some (7 # 10)%Q) None None) "u4" Demo.t4)
    = row_id r /\
    "Meeting with investors on Thursday at 14:04" = row_text r /\
    conversation = row_category r /\
    (7 # 10)%Q = row_importance r /\
    Demo.t4 = created_at r /\
    None = row_metadata r.
Proof.
  apply (recall_returns_rows Demo.eng (Demo.after Demo.fresh Demo.test_run)
           (Demo.ask "Thursday 14:04" (Some mode_structured))
           (Demo.rows_of (Demo.after Demo.fresh Demo.test_run))
           [new_memory Demo.cfg
              (mkStoreParams "Meeting with investors on Thursday at 14:04"
                 (Some conversation) (Some (7 # 10)%Q) None None) "u4" Demo.t4]).
  - vm_compute. reflexivity.
  - vm_compute. reflexivity.
  - now left.
Defined.

(** X2.  Unless the caller passes [filterNoise: false], no record returned
    by [recall] has a text that matches a configured noise pattern, whichever
    path produced it. *)
Theorem recall_never_noise (eng : Engine) (st : State)
  (params : MemoryRecallParams) (res : list Memory) (m : Memory) :
  filterNoise params <> Some false ->
  recall eng st params = Ok res ->
  In m res ->
  existsb (fun re => test re (text m)) (noisePatterns (config st)) = false.
Proof.
  intros Hon Hrec Hm.
  destruct (recall_cases eng st params res Hrec) as [rows [results [_ [_ ->]]]].
  apply slice0_incl in Hm.
  assert (Hf : noise_filter_on params = true).
  { unfold noise_filter_on. destruct (filterNoise params) as [[|]|]; congruence. }
  rewrite Hf in Hm. apply filter_In in Hm. destruct Hm as [_ Hm].
  now apply negb_true_iff in Hm.
Qed.

Lemma recall_never_noise_witness :
  existsb
    (fun re =>
       test re
         (text (new_memory Demo.cfg
                  (mkStoreParams "Meeting with investors on Thursday at 14:04"
                     (Some conversation) (Some (7 # 10)%Q) None None) "u4" Demo.t4)))
    (noisePatterns (config (Demo.after Demo.fresh Demo.test_run))) = false.
Proof.
  apply (recall_never_noise Demo.eng (Demo.after Demo.fresh Demo.test_run)
           (Demo.ask "Thursday 14:04" (Some mode_structured))
           [new_memory Demo.cfg
              (mkStoreParams "Meeting with investors on Thursday at 14:04"
                 (Some conversation) (Some (7 # 10)%Q) None None) "u4" Demo.t4]).
  - discriminate.
  - vm_compute. reflexivity.
  - now left.
Defined.

Lemma StronglySorted_firstn {A : Type} (R : A -> A -> Prop) (n : nat) (l : list A) :
  StronglySorted R l -> StronglySorted R (firstn n l).
Proof.
  intros Hs. revert n. induction Hs as [|x l Hs IH Hall]; intros [|n]; simpl;
    try constructor.
  - apply IH.
  - rewrite Forall_forall in *. intros y Hy. apply Hall.
    rewrite <- (firstn_skipn n l). apply in_or_app. now left.
Qed.

Lemma StronglySorted_filter {A : Type} (R : A -> A -> Prop) (f : A -> bool)
  (l : list A) :
  StronglySorted R l -> StronglySorted R (filter f l).
Proof.
  induction 1 as [|x l Hs IH Hall]; simpl; [constructor|].
  destruct (f x); [|exact IH].
  constructor; [exact IH|].
  rewrite Forall_forall in *. intros y Hy. apply Hall.
  apply filter_In in Hy. tauto.
Qed.

Lemma StronglySorted_map {A B : Type} (R : B -> B -> Prop) (f : A -> B)
  (l : list A) :
  StronglySorted (fun a b => R (f a) (f b)) l -> StronglySorted R (map f l).
Proof.
  induction 1 as [|x l Hs IH Hall]; simpl; constructor; [exact IH|].
  rewrite Forall_forall in *. intros y Hy. apply in_map_iff in Hy.
  destruct Hy as [z [<- Hz]]. now apply Hall.
Qed.

Lemma sql_limit_sorted {A : Type} (R : A -> A -> Prop) (n : Z) (l : list A) :
  StronglySorted R l -> StronglySorted R (sql_limit n l).
Proof.
  unfold sql_limit. destruct (n <? 0)%Z; [tauto|]. apply StronglySorted_firstn.
Qed.

Lemma structuredSearch_sorted (rows : Table) (params : MemoryRecallParams) (limit : Z) :
  StronglySorted memory_precedes (structuredSearch rows params limit).
Proof.
  unfold structuredSearch. apply StronglySorted_map. apply sql_limit_sorted.
  apply order_by_search_sorted.
Qed.

(** X3.  On the structured path (mode structured, a query the router
    classifies as structured, or embeddings disabled) the records come
    ordered by importance descending, then createdAt descending, and none
    carries a score. *)
Theorem recall_structured_sorted (eng : Engine) (st : State)
  (params : MemoryRecallParams) (res : list Memory) :
  structured_path st params ->
  recall eng st params = Ok res ->
  StronglySorted memory_precedes res /\
  Forall (fun m => score m = None) res.
Proof.
  intros Hpath Hrec.
  destruct (recall_cases eng st params res Hrec) as [rows [_ [Hdb _]]].
  rewrite (recall_structured_path eng st params rows Hpath Hdb) in Hrec.
  inversion Hrec as [Hres]. clear Hrec. split.
  - unfold slice0. apply StronglySorted_firstn.
    destruct (noise_filter_on params);
      [apply StronglySorted_filter|]; apply structuredSearch_sorted.
  - rewrite Forall_forall. intros m Hm. apply slice0_incl in Hm.
    assert (Hin : In m (structuredSearch rows params (limit_or (limit params) 5))).
    { destruct (noise_filter_on params); [|exact Hm]. apply filter_In in Hm. tauto. }
    apply structuredSearch_In in Hin. destruct Hin as [r [_ [_ ->]]]. reflexivity.
Qed.

Lemma recall_structured_sorted_witness :
  StronglySorted memory_precedes
    (Demo.answers
       (recall Demo.eng (Demo.after Demo.fresh Demo.three_alphas)
          (Demo.ask "alpha" (Some mode_structured)))) /\
  Forall (fun m => score m = None)
    (Demo.answers
       (recall Demo.eng (Demo.after Demo.fresh Demo.three_alphas)
          (Demo.ask "alpha" (Some mode_structured)))).
Proof.
  apply (recall_structured_sorted Demo.eng (Demo.after Demo.fresh Demo.three_alphas)
           (Demo.ask "alpha" (Some mode_structured))).
  - left. reflexivity.
  - vm_compute. reflexivity.
Defined.

Lemma cond_category_eq (c : MemoryCategory) (r : Row) :
  cond_category c r = true -> row_category r = c.
Proof. unfold cond_category. destruct c, (row_category r); congruence. Qed.

(** X4.  On the structured path the optional filters are honoured: with a
    [category], every returned record has that category; with a non-empty
    [dateFrom] (resp. [dateTo]), every returned record has a createdAt at or
    after (resp. at or before) it, in the order of TEXT values. *)
Theorem recall_filters_sound (eng : Engine) (st : State)
  (params : MemoryRecallParams) (res : list Memory) (m : Memory) :
  structured_path st params ->
  recall eng st params = Ok res ->
  In m res ->
  (forall c, rp_category params = Some c -> category m = c) /\
  (forall d, dateFrom params = Some d -> d <> "" ->
     String.leb d (createdAt m) = true) /\
  (forall d, dateTo params = Some d -> d <> "" ->
     String.leb (createdAt m) d = true).
Proof.
  intros Hpath Hrec Hm.
  destruct (recall_cases eng st params res Hrec) as [rows [_ [Hdb _]]].
  rewrite (recall_structured_path eng st params rows Hpath Hdb) in Hrec.
  inversion Hrec as [Hres]. clear Hrec. subst res.
  apply slice0_incl in Hm.
  assert (Hin : In m (structuredSearch rows params (limit_or (limit params) 5))).
  { destruct (noise_filter_on params); [|exact Hm]. apply filter_In in Hm. tauto. }
  apply structuredSearch_In in Hin. destruct Hin as [r [_ [Hw ->]]].
  unfold where_clause, conditions in Hw.
  rewrite !forallb_app in Hw.
  apply andb_true_iff in Hw. destruct Hw as [_ Hw].
  apply andb_true_iff in Hw. destruct Hw as [Hc Hw].
  apply andb_true_iff in Hw. destruct Hw as [Hf Ht].
  split; [|split].
  - intros c Ec. rewrite Ec in Hc. simpl in Hc. rewrite andb_true_r in Hc.
    now apply cond_category_eq.
  - intros d Ed Hne. rewrite Ed, (truthy_nonempty d Hne) in Hf. simpl in Hf.
    now rewrite andb_true_r in Hf.
  - intros d Ed Hne. rewrite Ed, (truthy_nonempty d Hne) in Ht. simpl in Ht.
    now rewrite andb_true_r in Ht.
Qed.

Lemma recall_filters_sound_witness :
  (forall c, Some decision = Some c ->
     category (new_memory Demo.cfg
                 (mkStoreParams "Decided to use TypeScript for the Betty project"
                    (Some decision) (Some (85 # 100)%Q) None None) "u3" Demo.t3) = c) /\
  (forall d, Some Demo.t2 = Some d -> d <> "" ->
     String.leb d
       (createdAt (new_memory Demo.cfg
                     (mkStoreParams "Decided to use TypeScript for the Betty project"
                        (Some decision) (Some (85 # 100)%Q) None None) "u3" Demo.t3))
     = true) /\
  (forall d, @None string = Some d -> d <> "" ->
     String.leb
       (createdAt (new_memory Demo.cfg
                     (mkStoreParams "Decided to use TypeScript for the Betty project"
                        (Some decision) (Some (85 # 100)%Q) None None) "u3" Demo.t3))
       d = true).
Proof.
  apply (recall_filters_sound Demo.eng (Demo.after Demo.fresh Demo.test_run)
           (mkRecallParams "project" None (Some decision) (Some Demo.t2) None None
              (Some mode_structured))
           [new_memory Demo.cfg
              (mkStoreParams "Decided to use TypeScript for the Betty project"
                 (Some decision) (Some (85 # 100)%Q) None None) "u3" Demo.t3]).
  - left. reflexivity.
  - vm_compute. reflexivity.
  - now left.
Defined.

(** X5.  On the structured path [recall] consults neither the vector table
    nor the engine nor the pending jobs: it returns the same for any engine
    and any two states with the same table and configuration. *)
Theorem recall_ignores_vector_store (eng eng' : Engine) (st st' : State)
  (params : MemoryRecallParams) :
  structured_path st params ->
  db st' = db st ->
  config st' = config st ->
  recall eng st params = recall eng' st' params.
Proof.
  intros Hpath Hdb Hcfg. unfold recall. rewrite Hdb, Hcfg.
  destruct (db st) as [rows|]; [|reflexivity]. cbv zeta.
  replace (is_structured (resolve_mode params) || negb (enableEmbeddings (config st)))
    with true; [reflexivity|].
  symmetry. destruct Hpath as [-> | ->]; [reflexivity | apply orb_true_r].
Qed.

Lemma recall_ignores_vector_store_witness :
  recall Demo.eng Demo.orphan_state (Demo.ask "dark mode" (Some mode_structured)) =
  recall Demo.eng_down (set_lanceTable Demo.orphan_state None)
    (Demo.ask "dark mode" (Some mode_structured)).
Proof.
  apply (recall_ignores_vector_store Demo.eng Demo.eng_down Demo.orphan_state
           (set_lanceTable Demo.orphan_state None)
           (Demo.ask "dark mode" (Some mode_structured))).
  - left. reflexivity.
  - reflexivity.
  - reflexivity.
Defined.

(** ** The semantic path *)

Lemma find_filter_imp {A : Type} (f g : A -> bool) (l : list A) :
  (forall x, f x = true -> g x = true) -> find f (filter g l) = find f l.
Proof.
  intros Himp. induction l as [|x l IH]; simpl; [reflexivity|].
  destruct (g x) eqn:Eg; simpl.
  - now rewrite IH.
  - destruct (f x) eqn:Ef; [|exact IH]. rewrite (Himp x Ef) in Eg. discriminate.
Qed.

Lemma lookup_memory_found (rows : Table) (i : string) :
  has_id i rows = true ->
  exists r, In r rows /\ row_id r = i /\ lookup_memory rows i = Some (memory_of_row r).
Proof.
  intros Hhas. unfold lookup_memory.
  destruct (find _ rows) as [r|] eqn:E.
  - apply find_some in E. destruct E as [Hr E]. apply String.eqb_eq in E.
    now exists r.
  - unfold has_id in Hhas. apply existsb_exists in Hhas.
    destruct Hhas as [r [Hr E']]. now rewrite (find_none _ _ E r Hr) in E'.
Qed.

Lemma lookup_memory_missing (rows : Table) (i : string) :
  has_id i rows = false -> lookup_memory rows i = None.
Proof.
  intros Hhas. unfold lookup_memory.
  destruct (find _ rows) as [r|] eqn:E; [|reflexivity].
  apply find_some in E. destruct E as [Hr E].
  assert (has_id i rows = true); [|congruence].
  unfold has_id. apply existsb_exists. now exists r.
Qed.

Lemma hydrate_spec (rows : Table) (hits : list Hit) :
  map (fun m => (id m, score m)) (hydrate rows hits) =
  map (fun h => (h_id h, Some (1 - distance_or_0 h)%Q))
      (filter (fun h => has_id (h_id h) rows) hits).
Proof.
  unfold hydrate.
  set (ids := map h_id hits).
  assert (Hgen : forall l, incl l hits ->
            map (fun m => (id m, score m))
              (flat_map
                 (fun r =>
                    match lookup_memory
                            (filter (fun r0 => id_in ids (row_id r0)) rows) (h_id r) with
                    | Some m =>
                        [with_score m
                           (1 - match h_distance r with Some d => d | None => 0 end)%Q]
                    | None => []
                    end) l) =
            map (fun h => (h_id h, Some (1 - distance_or_0 h)%Q))
              (filter (fun h => has_id (h_id h) rows) l)).
  { induction l as [|h l IH]; intros Hincl; [reflexivity|].
    assert (Hh : In (h_id h) ids).
    { unfold ids. apply in_map. apply Hincl. now left. }
    assert (Hlook : lookup_memory (filter (fun r0 => id_in ids (row_id r0)) rows) (h_id h)
                    = lookup_memory rows (h_id h)).
    { unfold lookup_memory. rewrite find_filter_imp; [reflexivity|].
      intros x Ex. apply String.eqb_eq in Ex. rewrite Ex. now apply id_in_iff. }
    cbn [flat_map filter]. rewrite Hlook.
    destruct (has_id (h_id h) rows) eqn:Ehas.
    - destruct (lookup_memory_found rows (h_id h) Ehas) as [r [_ [Er ->]]].
      cbn [app map]. rewrite IH by (intros x Hx; apply Hincl; now right).
      unfold distance_or_0. simpl. now rewrite Er.
    - rewrite (lookup_memory_missing rows (h_id h) Ehas). cbn [app].
      apply IH. intros x Hx. apply Hincl. now right. }
  apply Hgen. apply incl_refl.
Qed.

(** X6.  When the vector search returns at least one hit, [semanticSearch]
    returns exactly the hits that have a row in the table, in the order of
    the vector search, each with score [1 - distance] (distance 0 when the
    engine gives none); the [category], [dateFrom] and [dateTo] of the
    request play no part in it. *)
Theorem semantic_results (eng : Engine) (st : State) (rows : Table)
  q lim c df dt fn md (limit : Z) tbl v h hits :
  lanceTable st = Some tbl ->
  embed eng q (embeddingModel (config st)) = Some v ->
  search eng tbl v (limit * 2) = Some (h :: hits) ->
  map (fun m => (id m, score m))
      (semanticSearch eng st rows (mkRecallParams q lim c df dt fn md) limit) =
  map (fun h' => (h_id h', Some (1 - distance_or_0 h')%Q))
      (filter (fun h' => has_id (h_id h') rows) (h :: hits)).
Proof.
  intros Ht He Hs. unfold semanticSearch. rewrite Ht. cbn [query]. rewrite He, Hs.
  cbn [map]. apply hydrate_spec.
Qed.

Lemma semantic_results_witness :
  map (fun m => (id m, score m))
      (semanticSearch Demo.eng Demo.orphan_state (Demo.rows_of Demo.orphan_state)
         (mkRecallParams "dark mode" None (Some fact) None None None None) 5) =
  map (fun h' => (h_id h', Some (1 - distance_or_0 h')%Q))
      (filter (fun h' => has_id (h_id h') (Demo.rows_of Demo.orphan_state))
         [mkHit "u1" (Some 0%Q)]).
Proof.
  apply (semantic_results Demo.eng Demo.orphan_state (Demo.rows_of Demo.orphan_state)
           "dark mode" None (Some fact) None None None None 5
           [mkVecRow "u1" [1%Q] "dark mode in the editor"] [1%Q]
           (mkHit "u1" (Some 0%Q)) []).
  - vm_compute. reflexivity.
  - reflexivity.
  - reflexivity.
Defined.

(** ** Background jobs and the structured path *)

Lemma conditions_ignore_embedding (params : MemoryRecallParams) (c : Row -> bool)
  (r : Row) :
  In c (conditions params) -> c (set_embedded r) = c r.
Proof.
  unfold conditions. intros Hc.
  apply in_app_or in Hc. destruct Hc as [Hc|Hc].
  { destruct (truthy (query params)); [|contradiction].
    destruct (search_words (query params)); [contradiction|].
    destruct Hc as [<-|[]]. reflexivity. }
  apply in_app_or in Hc. destruct Hc as [Hc|Hc].
  { destruct (rp_category params); [|contradiction].
    destruct Hc as [<-|[]]. reflexivity. }
  apply in_app_or in Hc. destruct Hc as [Hc|Hc].
  { destruct (dateFrom params) as [d|]; [|contradiction].
    destruct (truthy d); [|contradiction]. destruct Hc as [<-|[]]. reflexivity. }
  destruct (dateTo params) as [d|]; [|contradiction].
  destruct (truthy d); [|contradiction]. destruct Hc as [<-|[]]. reflexivity.
Qed.

Lemma set_embedded_cond (params : MemoryRecallParams) (r : Row) :
  where_clause (conditions params) (set_embedded r) =
  where_clause (conditions params) r.
Proof.
  unfold where_clause.
  assert (H := conditions_ignore_embedding params).
  induction (conditions params) as [|c cs IH]; [reflexivity|].
  simpl. rewrite (H c r (or_introl eq_refl)). f_equal.
  apply IH. intros c' r' Hc'. apply H. now right.
Qed.

Section MapCommutes.
Context {A : Type} (f : A -> A).

Lemma filter_map_commute (g : A -> bool) (l : list A) :
  (forall x, g (f x) = g x) -> filter g (map f l) = map f (filter g l).
Proof.
  intros Hg. induction l as [|x l IH]; simpl; [reflexivity|].
  rewrite Hg. destruct (g x); simpl; now rewrite IH.
Qed.

Lemma insert_by_map_commute (leb : A -> A -> bool) (x : A) (l : list A) :
  (forall a b, leb (f a) (f b) = leb a b) ->
  insert_by leb (f x) (map f l) = map f (insert_by leb x l).
Proof.
  intros Hleb. induction l as [|y l IH]; simpl; [reflexivity|].
  rewrite Hleb. destruct (leb x y); simpl; [reflexivity | now rewrite IH].
Qed.

Lemma sort_by_map_commute (leb : A -> A -> bool) (l : list A) :
  (forall a b, leb (f a) (f b) = leb a b) ->
  sort_by leb (map f l) = map f (sort_by leb l).
Proof.
  intros Hleb. induction l as [|x l IH]; simpl; [reflexivity|].
  rewrite IH. now apply insert_by_map_commute.
Qed.

Lemma sql_limit_map_commute (n : Z) (l : list A) :
  sql_limit n (map f l) = map f (sql_limit n l).
Proof.
  unfold sql_limit. destruct (n <? 0)%Z; [reflexivity|]. apply firstn_map.
Qed.

End MapCommutes.

Lemma structuredSearch_mark_embedded (rows : Table) (i : string)
  (params : MemoryRecallParams) (limit : Z) :
  structuredSearch (mark_embedded i rows) params limit =
  structuredSearch rows params limit.
Proof.
  unfold structuredSearch, mark_embedded, order_by.
  set (f := fun r : Row => if String.eqb (row_id r) i then set_embedded r else r).
  rewrite (filter_map_commute f).
  - rewrite (sort_by_map_commute f).
    + rewrite sql_limit_map_commute, map_map. apply map_ext.
      intros r. unfold f. now destruct (String.eqb (row_id r) i).
    + intros a b. unfold f.
      destruct (String.eqb (row_id a) i), (String.eqb (row_id b) i); reflexivity.
  - intros r. unfold f. destruct (String.eqb (row_id r) i); [|reflexivity].
    apply set_embedded_cond.
Qed.

(** X7.  A pending job that completes (an embedding stored and the row
    flagged, or a detached vector delete) never changes what [recall] returns
    on the structured path. *)
Theorem jobs_keep_structured_recall (eng engj : Engine) (st : State) (n : nat)
  (params : MemoryRecallParams) :
  structured_path st params ->
  recall eng (step_pending engj st n) params = recall eng st params.
Proof.
  intros Hpath. unfold recall.
  destruct (db st) as [rows|] eqn:Hdb.
  - destruct (step_pending_db engj st n rows Hdb) as [Hcfg [Hd|[i Hd]]];
      rewrite Hd, Hcfg; cbv zeta;
      (replace (is_structured (resolve_mode params) || negb (enableEmbeddings (config st)))
         with true
         by (symmetry; destruct Hpath as [-> | ->]; [reflexivity | apply orb_true_r]));
      [reflexivity|].
    now rewrite structuredSearch_mark_embedded.
  - assert (Hnone : db (step_pending engj st n) = None).
    { unfold step_pending. destruct (nth_error (pending st) n) as [[m|i]|];
        [| |exact Hdb]; simpl.
      - unfold storeEmbedding; simpl. destruct (embed engj _ _); [|exact Hdb].
        destruct (add_ok engj _); simpl; now rewrite ?Hdb.
      - destruct (lanceTable st); [|exact Hdb].
        destruct (delete_ok engj i); exact Hdb. }
    now rewrite Hnone.
Qed.

Lemma jobs_keep_structured_recall_witness :
  recall Demo.eng (step_pending Demo.eng Demo.orphan_state 0)
    (Demo.ask "dark mode" (Some mode_structured)) =
  recall Demo.eng Demo.orphan_state (Demo.ask "dark mode" (Some mode_structured)).
Proof.
  apply (jobs_keep_structured_recall Demo.eng Demo.eng Demo.orphan_state 0
           (Demo.ask "dark mode" (Some mode_structured))).
  left. reflexivity.
Defined.

(** ** forget *)

Lemma filter_partition_length {A : Type} (f : A -> bool) (l : list A) :
  (List.length (filter f l) + List.length (filter (fun x => negb (f x)) l) =
   List.length l)%nat.
Proof.
  induction l as [|x l IH]; simpl; [reflexivity|].
  destruct (f x); simpl; lia.
Qed.

Lemma delete_ids_nil (rows : Table) : delete_ids [] rows = (rows, 0%Z).
Proof.
  unfold delete_ids. cbv zeta.
  assert (E : filter (fun r => negb (id_in [] (row_id r))) rows = rows)
    by (now apply filter_all).
  rewrite E. rewrite Z.sub_diag. reflexivity.
Qed.

(** The number of rows a DELETE removes is at most the number of ids. *)
Lemma delete_count_le (ids : list string) (rows : Table) :
  NoDup (map row_id rows) ->
  (0 <= snd (delete_ids ids rows) <= Z.of_nat (List.length ids))%Z.
Proof.
  intros Hnd. unfold delete_ids. cbn [snd].
  pose proof (filter_partition_length (fun r => id_in ids (row_id r)) rows) as Hp.
  assert (Hle : (List.length (filter (fun r => id_in ids (row_id r)) rows)
                 <= List.length ids)%nat).
  { rewrite <- (length_map row_id).
    apply NoDup_incl_length; [now apply NoDup_map_filter|].
    intros i Hi. apply in_map_iff in Hi. destruct Hi as [r [<- Hr]].
    apply filter_In in Hr. destruct Hr as [_ Hr]. now apply id_in_iff. }
  lia.
Qed.

Lemma recall_length (eng : Engine) (st : State) (params : MemoryRecallParams)
  (res : list Memory) :
  recall eng st params = Ok res ->
  (0 <= limit_or (limit params) 5)%Z ->
  (Z.of_nat (List.length res) <= limit_or (limit params) 5)%Z.
Proof.
  intros Hrec Hpos.
  destruct (recall_cases _ _ _ _ Hrec) as [rows [results [_ [_ ->]]]].
  now apply slice0_length.
Qed.

(** What every call to [forget] on an initialised plugin does to the table. *)
Lemma forget_effect (eng : Engine) (st : State) (rows : Table)
  (params : MemoryForgetParams) :
  db st = Some rows ->
  exists ids st',
    forget eng st params = Ok (st', snd (delete_ids ids rows)) /\
    db st' = Some (fst (delete_ids ids rows)) /\
    config st' = config st /\
    (truthy_opt (memoryId params) = true -> (List.length ids <= 1)%nat) /\
    (List.length ids <= 100)%nat.
Proof.
  intros Hdb. unfold forget. rewrite Hdb.
  destruct (truthy_opt (memoryId params)) eqn:Hid.
  - destruct (memoryId params) as [X|]; [|discriminate]. cbn [bind].
    exists [X]. unfold delete_ids. cbv beta iota zeta. cbn [fst snd].
    destruct (lanceTable st); eexists;
      (split; [reflexivity|]); (split; [reflexivity|]); (split; [reflexivity|]);
      split; intros; simpl; lia.
  - destruct (truthy_opt (fp_query params)) eqn:Hq.
    + destruct (recall eng st _) as [mems|e] eqn:Hrec.
      2:{ unfold recall in Hrec. rewrite Hdb in Hrec. discriminate. }
      assert (Hlen : (List.length (map id mems) <= 100)%nat).
      { rewrite length_map.
        pose proof (recall_length _ _ _ _ Hrec) as Hs.
        cbn [limit limit_or Z.eqb] in Hs. lia. }
      cbn [bind]. exists (map id mems).
      destruct (map id mems) as [|i ids] eqn:Eids.
      * exists st. rewrite delete_ids_nil. cbn [fst snd].
        split; [reflexivity|]. split; [exact Hdb|]. split; [reflexivity|].
        split; [discriminate | simpl; lia].
      * unfold delete_ids. cbv beta iota zeta. cbn [fst snd].
        destruct (lanceTable st); eexists;
          (split; [reflexivity|]); (split; [reflexivity|]); (split; [reflexivity|]);
          (split; [discriminate | exact Hlen]).
    + cbn [bind]. exists [], st. rewrite delete_ids_nil. cbn [fst snd].
      split; [reflexivity|]. split; [exact Hdb|]. split; [reflexivity|].
      split; [discriminate | simpl; lia].
Qed.

(** X8.  On an initialised plugin [forget] never throws, whatever the
    vector engine does.  The number it returns is exactly the number of rows
    that left the table (the drop of [stats().total]); the rows that remain
    are rows of the old table, unaltered and in their old order; the
    configuration is untouched. *)
Theorem forget_count (eng : Engine) (st : State) (rows : Table)
  (params : MemoryForgetParams) :
  db st = Some rows ->
  exists st' deleted rows' keep,
    forget eng st params = Ok (st', deleted) /\
    db st' = Some rows' /\
    rows' = filter keep rows /\
    total (stats rows') = (total (stats rows) - deleted)%Z /\
    (0 <= deleted)%Z /\
    config st' = config st.
Proof.
  intros Hdb.
  destruct (forget_effect eng st rows params Hdb) as [ids [st' [Hf [Hdb' [Hcfg _]]]]].
  exists st', (snd (delete_ids ids rows)), (fst (delete_ids ids rows)),
    (fun r => negb (id_in ids (row_id r))).
  split; [exact Hf|]. split; [exact Hdb'|]. split; [reflexivity|].
  unfold delete_ids, stats. cbn [fst snd total].
  pose proof (filter_length_le (fun r => negb (id_in ids (row_id r))) rows).
  split; [lia|]. split; [lia | exact Hcfg].
Qed.

Lemma forget_count_witness :
  exists st' deleted rows' keep,
    forget Demo.eng_down (Demo.after Demo.fresh Demo.two_stores)
      (mkForgetParams None (Some "Winterthur")) = Ok (st', deleted) /\
    db st' = Some rows' /\
    rows' = filter keep (Demo.rows_of (Demo.after Demo.fresh Demo.two_stores)) /\
    total (stats rows') =
      (total (stats (Demo.rows_of (Demo.after Demo.fresh Demo.two_stores))) - deleted)%Z /\
    (0 <= deleted)%Z /\
    config st' = config (Demo.after Demo.fresh Demo.two_stores).
Proof.
  apply (forget_count Demo.eng_down (Demo.after Demo.fresh Demo.two_stores)
           (Demo.rows_of (Demo.after Demo.fresh Demo.two_stores))
           (mkForgetParams None (Some "Winterthur"))).
  vm_compute. reflexivity.
Defined.

(** X9.  With ids unique in the table, one call to [forget] removes at most
    one row when it is given a [memoryId], and at most 100 rows when it is
    given a query (the candidates come from [recall] with [limit: 100]). *)
Theorem forget_bounds (eng : Engine) (st st' : State) (rows : Table)
  (params : MemoryForgetParams) (deleted : Z) :
  db st = Some rows ->
  NoDup (map row_id rows) ->
  forget eng st params = Ok (st', deleted) ->
  (0 <= deleted <= 100)%Z /\
  (truthy_opt (memoryId params) = true -> (deleted <= 1)%Z).
Proof.
  intros Hdb Hnd Hf.
  destruct (forget_effect eng st rows params Hdb)
    as [ids [st1 [Hf1 [_ [_ [Hone Hcap]]]]]].
  pose proof (delete_count_le ids rows Hnd) as Hle.
  remember (snd (delete_ids ids rows)) as d eqn:Ed. clear Ed.
  rewrite Hf in Hf1. inversion Hf1; subst.
  split; [lia|]. intros Hid. specialize (Hone Hid). lia.
Qed.

Lemma forget_bounds_witness :
  (0 <= 1 <= 100)%Z /\
  (truthy_opt (memoryId (mkForgetParams (Some "u1") None)) = true -> (1 <= 1)%Z).
Proof.
  apply (forget_bounds Demo.eng (Demo.after Demo.fresh Demo.two_stores)
           (Demo.answers_state
              (forget Demo.eng (Demo.after Demo.fresh Demo.two_stores)
                 (mkForgetParams (Some "u1") None)))
           (Demo.rows_of (Demo.after Demo.fresh Demo.two_stores))
           (mkForgetParams (Some "u1") None) 1%Z).
  - vm_compute. reflexivity.
  - vm_compute. repeat constructor; simpl; intuition discriminate.
  - vm_compute. reflexivity.
Defined.

Lemma forget_by_id_state (eng : Engine) (st : State) (rows : Table) (X : string)
  (q : option string) :
  db st = Some rows ->
  X <> "" ->
  exists st',
    forget eng st (mkForgetParams (Some X) q) = Ok (st', snd (delete_ids [X] rows)) /\
    db st' = Some (fst (delete_ids [X] rows)) /\
    lanceTable st' =
      match lanceTable st with
      | Some tbl => Some (if delete_ok eng X then delete_row X tbl else tbl)
      | None => None
      end.
Proof.
  intros Hdb Hne. unfold forget. rewrite Hdb.
  cbn [memoryId truthy_opt]. rewrite (truthy_nonempty X Hne). cbn [bind].
  unfold delete_ids. cbv beta iota zeta. cbn [fst snd].
  destruct (lanceTable st) eqn:E; eexists;
    (split; [reflexivity|]); (split; [reflexivity|]); simpl; rewrite ?E; reflexivity.
Qed.

(** X10.  After [forget({memoryId: X})] the table has no row with id [X],
    every other row is still there, and this holds also when the vector
    delete throws (the error is swallowed).  In the vector table, [X] is gone
    when the engine's delete succeeds; when it throws the vector table is as
    it was. *)
Theorem forget_by_id_removes (eng : Engine) (st st' : State) (rows : Table)
  (X : string) (q : option string) (deleted : Z) :
  db st = Some rows ->
  X <> "" ->
  forget eng st (mkForgetParams (Some X) q) = Ok (st', deleted) ->
  (exists rows',
     db st' = Some rows' /\
     ~ In X (map row_id rows') /\
     (forall r, In r rows -> row_id r <> X -> In r rows')) /\
  (delete_ok eng X = true ->
   forall tbl', lanceTable st' = Some tbl' -> ~ In X (map v_id tbl')) /\
  (delete_ok eng X = false -> lanceTable st' = lanceTable st).
Proof.
  intros Hdb Hne Hf.
  destruct (forget_by_id_state eng st rows X q Hdb Hne) as [st1 [Hf1 [Hdb1 Hl1]]].
  rewrite Hf in Hf1. inversion Hf1; subst st1 deleted. clear Hf1.
  split; [|split].
  - exists (fst (delete_ids [X] rows)). split; [exact Hdb1|].
    unfold delete_ids. cbn [fst]. split.
    + intros Hin. apply in_map_iff in Hin. destruct Hin as [r [Er Hr]].
      apply filter_In in Hr. destruct Hr as [_ Hr].
      rewrite id_in_single, Er, String.eqb_refl in Hr. discriminate.
    + intros r Hr Hneq. apply filter_In. split; [exact Hr|].
      rewrite id_in_single. apply negb_true_iff. now apply String.eqb_neq.
  - intros Hok tbl' Ht. rewrite Hl1 in Ht.
    destruct (lanceTable st) as [tbl|]; [|discriminate].
    rewrite Hok in Ht. inversion Ht; subst tbl'.
    intros Hin. apply in_map_iff in Hin. destruct Hin as [v [Ev Hv]].
    unfold delete_row in Hv. apply filter_In in Hv. destruct Hv as [_ Hv].
    rewrite Ev, String.eqb_refl in Hv. discriminate.
  - intros Hfail. rewrite Hl1. destruct (lanceTable st); [|reflexivity].
    now rewrite Hfail.
Qed.

Lemma forget_by_id_removes_witness :
  (exists rows',
     db (Demo.answers_state
           (forget Demo.eng_down Demo.orphan_state (mkForgetParams (Some "u2") None)))
     = Some rows' /\
     ~ In "u2" (map row_id rows') /\
     (forall r, In r (Demo.rows_of Demo.orphan_state) -> row_id r <> "u2" -> In r rows')) /\
  (delete_ok Demo.eng_down "u2" = true ->
   forall tbl',
     lanceTable
       (Demo.answers_state
          (forget Demo.eng_down Demo.orphan_state (mkForgetParams (Some "u2") None)))
     = Some tbl' -> ~ In "u2" (map v_id tbl')) /\
  (delete_ok Demo.eng_down "u2" = false ->
   lanceTable
     (Demo.answers_state
        (forget Demo.eng_down Demo.orphan_state (mkForgetParams (Some "u2") None)))
   = lanceTable Demo.orphan_state).
Proof.
  apply (forget_by_id_removes Demo.eng_down Demo.orphan_state
           (Demo.answers_state
              (forget Demo.eng_down Demo.orphan_state (mkForgetParams (Some "u2") None)))
           (Demo.rows_of Demo.orphan_state) "u2" None 1%Z).
  - vm_compute. reflexivity.
  - discriminate.
  - vm_compute. reflexivity.
Defined.

(** X11.  [forget({memoryId: X})] for an id that is not in the table
    returns [{deleted: 0}] and leaves the table as it was. *)
Theorem forget_unknown_id (eng : Engine) (st st' : State) (rows : Table)
  (X : string) (q : option string) (deleted : Z) :
  db st = Some rows ->
  X <> "" ->
  ~ In X (map row_id rows) ->
  forget eng st (mkForgetParams (Some X) q) = Ok (st', deleted) ->
  deleted = 0%Z /\ db st' = Some rows.
Proof.
  intros Hdb Hne Hnot Hf.
  destruct (forget_by_id_state eng st rows X q Hdb Hne) as [st1 [Hf1 [Hdb1 _]]].
  assert (E : delete_ids [X] rows = (rows, 0%Z)).
  { unfold delete_ids. cbv zeta. rewrite (delete_absent X rows Hnot).
    now rewrite Z.sub_diag. }
  rewrite E in Hf1, Hdb1. cbn [fst snd] in Hf1, Hdb1.
  rewrite Hf in Hf1. inversion Hf1; subst. now split.
Qed.

Lemma forget_unknown_id_witness :
  0%Z = 0%Z /\
  db (Demo.answers_state
        (forget Demo.eng (Demo.after Demo.fresh Demo.two_stores)
           (mkForgetParams (Some "no-such-id") None)))
  = Some (Demo.rows_of (Demo.after Demo.fresh Demo.two_stores)).
Proof.
  apply (forget_unknown_id Demo.eng (Demo.after Demo.fresh Demo.two_stores)
           (Demo.answers_state
              (forget Demo.eng (Demo.after Demo.fresh Demo.two_stores)
                 (mkForgetParams (Some "no-such-id") None)))
           (Demo.rows_of (Demo.after Demo.fresh Demo.two_stores))
           "no-such-id" None 0%Z).
  - vm_compute. reflexivity.
  - discriminate.
  - vm_compute. intuition discriminate.
  - vm_compute. reflexivity.
Defined.
